(** * eos: nonlinear orthographic camera estimation

    A shallow embedding of [include/eos/fitting/nonlinear_camera_estimation.hpp]:
    the [Frustum] and [OrthographicRenderingParameters] structs and the function
    [estimate_orthographic_camera].

    Scalars are IEEE-754 values ([spec_float] of the Standard Library): C++
    [float] is binary32, [double] is binary64, every operation rounds to
    nearest, ties to even.  The Levenberg-Marquardt engine of Eigen is an
    external library: the call [lm.minimize(parameters)] is an event of the
    program, answered by whatever solver the program is run against. *)

From Stdlib Require Import Reals ZArith List Bool Lia SpecFloat.
Import ListNotations.
Local Open Scope Z_scope.

(** ** Scalars *)

(** A value re-rounded into the format [(prec, emax)]: the conversions between
    [float] and [double]. Zeros, infinities and NaN are kept. *)
Definition SFconvert (prec emax : Z) (x : spec_float) : spec_float :=
  match x with
  | S754_finite s m e => binary_normalize prec emax (cond_Zopp s (Zpos m)) e s
  | _ => x
  end.

(** C++ [float]: IEEE-754 binary32. *)
Module F32.
Definition prec : Z := 24.
Definition emax : Z := 128.
Definition t : Type := spec_float.

Definition valid (x : t) : bool := valid_binary prec emax x.
Definition opp (x : t) : t := SFopp x.
Definition mul (x y : t) : t := SFmul prec emax x y.
Definition div (x y : t) : t := SFdiv prec emax x y.
Definition ltb (x y : t) : bool := SFltb x y.
Definition eqb (x y : t) : bool := SFeqb x y.

(** [static_cast<float>(n)] for an [int] n, and the implicit conversion of an
    [int] operand of a [float] operation. *)
Definition of_int (n : Z) : t := binary_normalize prec emax n 0 false.

(** [static_cast<float>(d)] for a [double] d, and the narrowing of a
    [double] initialiser of a [float] member. *)
Definition of_double (d : spec_float) : t := SFconvert prec emax d.

(** The literal [1.0f]. *)
Definition one : t := S754_finite false 8388608 (-23).
Definition zero : t := S754_zero false.
End F32.

(** C++ [double]: IEEE-754 binary64. *)
Module F64.
Definition prec : Z := 53.
Definition emax : Z := 1024.
Definition t : Type := spec_float.

Definition valid (x : t) : bool := valid_binary prec emax x.
Definition opp (x : t) : t := SFopp x.
Definition mul (x y : t) : t := SFmul prec emax x y.
Definition div (x y : t) : t := SFdiv prec emax x y.
Definition ltb (x y : t) : bool := SFltb x y.
Definition eqb (x y : t) : bool := SFeqb x y.

Definition of_int (n : Z) : t := binary_normalize prec emax n 0 false.

(** The promotion of a [float] operand of a [double] operation: the same
    number, written with a binary64 mantissa. *)
Definition of_float (x : F32.t) : t := SFconvert prec emax x.

(** The literals [0.0], [110.0] and [0.0001], and the number one. *)
Definition zero : t := S754_zero false.
Definition one : t := S754_finite false 4503599627370496 (-52).
Definition lit_110 : t := S754_finite false 7740561859543040 (-46).
Definition lit_0_0001 : t := S754_finite false 7378697629483821 (-66).
End F64.

(** ** Data *)

(** [cv::Vec2f] and [cv::Vec4f]. *)
Record Vec2f := { v2_0 : F32.t; v2_1 : F32.t }.
Record Vec4f := { v4_0 : F32.t; v4_1 : F32.t; v4_2 : F32.t; v4_3 : F32.t }.

(** [struct Frustum { float l, r, b, t; }]. *)
Record Frustum := { l : F32.t; r : F32.t; b : F32.t; t : F32.t }.

(** [struct OrthographicRenderingParameters]; the function's return type is
    spelled [RenderingParameters] and is initialised with this member list. *)
Record OrthographicRenderingParameters := {
  r_x : F32.t; (* Pitch. *)
  r_y : F32.t; (* Yaw. *)
  r_z : F32.t; (* Roll. *)
  t_x : F32.t;
  t_y : F32.t;
  frustum : Frustum
}.

(** [Eigen::VectorXd]: a vector of doubles whose size is known at run time. *)
Definition VectorXd : Type := list F64.t.

(** [v.setConstant(n, c)]: resize to [n] coefficients, all equal to [c]. *)
Definition setConstant (n : nat) (c : F64.t) : VectorXd := repeat c n.

(** [detail::OrthographicParameterProjection]: the cost functor, built from
    the correspondences and the image size.  Its evaluation operator lives in
    the detail header; here it is the record of what its constructor is given. *)
Record OrthographicParameterProjection := {
  opp_image_points : list Vec2f;
  opp_model_points : list Vec4f;
  opp_width : Z;
  opp_height : Z
}.

(** [Eigen::NumericalDiff<Functor>(f, epsfcn)]: the functor together with the
    step parameter of the finite differences that stand for its Jacobian.
    Eigen's constructor has [epsfcn = 0.] as default argument. *)
Record NumericalDiff := {
  nd_functor : OrthographicParameterProjection;
  nd_epsfcn : F64.t
}.

Definition NumericalDiff_default_epsfcn : F64.t := F64.zero.

(** ** Programs

    A call either returns, or aborts the process: [assert] (from [<cassert>],
    compiled without [NDEBUG]) and Eigen's range check of [operator[]] both
    abort.  The one interaction with the outside is the solver call. *)

Inductive abort_reason :=
| AssertSizesEqual     (* assert(image_points.size() == model_points.size()) *)
| AssertAtLeastSix     (* assert(image_points.size() >= 6) *)
| IndexOutOfRange (index : nat).

Inductive outcome (A : Type) :=
| Returned (a : A)
| Aborted (why : abort_reason).
Arguments Returned {A} a.
Arguments Aborted {A} why.

Section Program.
(** The type of [lm.minimize]'s return value
    ([Eigen::LevenbergMarquardtSpace::Status]). *)
Variable Status : Type.

Inductive program (A : Type) :=
| Ret (a : A)
| Abort (why : abort_reason)
| LmMinimize (functor : NumericalDiff) (x : VectorXd)
             (k : Status * VectorXd -> program A).
Arguments Ret {A} a.
Arguments Abort {A} why.
Arguments LmMinimize {A} functor x k.

Fixpoint bind {A B : Type} (p : program A) (f : A -> program B) : program B :=
  match p with
  | Ret a => f a
  | Abort why => Abort why
  | LmMinimize functor x k => LmMinimize functor x (fun reply => bind (k reply) f)
  end.

Notation "x <- p ;; q" := (bind p (fun x => q))
  (at level 61, p at next level, right associativity).
Notation "p ;; q" := (bind p (fun _ => q))
  (at level 61, right associativity).

Definition assert (why : abort_reason) (cond : bool) : program unit :=
  if cond then Ret tt else Abort why.

(** [v[i]] as an rvalue. *)
Definition coeff (v : VectorXd) (i : nat) : program F64.t :=
  match nth_error v i with
  | Some d => Ret d
  | None => Abort (IndexOutOfRange i)
  end.

(** [v[i] = d]. *)
Fixpoint set_nth (v : VectorXd) (i : nat) (d : F64.t) : VectorXd :=
  match v, i with
  | [], _ => []
  | _ :: v', O => d :: v'
  | c :: v', S i' => c :: set_nth v' i' d
  end.

Definition set_coeff (v : VectorXd) (i : nat) (d : F64.t) : program VectorXd :=
  if Nat.ltb i (length v) then Ret (set_nth v i d) else Abort (IndexOutOfRange i).

(** [lm.minimize(parameters)]: the solver reads the functor it was built
    with, updates [parameters] in place and returns its status. *)
Definition lm_minimize (functor : NumericalDiff) (x : VectorXd)
  : program (Status * VectorXd) :=
  LmMinimize functor x (fun reply => Ret reply).

(** *** The function *)

Definition initial_frustum_scale : F64.t := F64.lit_110.
Definition numerical_diff_epsfcn : F64.t := F64.lit_0_0001.

(** [const float aspect = static_cast<float>(width) / height;]: both [int]
    dimensions are converted to [float], and the division is that of [float].
    An [int] is an integer between [-2^31] and [2^31 - 1]; the conversion is
    defined on every integer. *)
Definition aspect_of (width height : Z) : F32.t :=
  F32.div (F32.of_int width) (F32.of_int height).

(** [Frustum camera_frustum{ -1.0f * aspect * parameters[5], ... }]: each
    product is [float * float], then [float * double] carried out in
    [double], then narrowed to the [float] member. *)
Definition camera_frustum_of (aspect : F32.t) (parameters : VectorXd)
  : program Frustum :=
  p5l <- coeff parameters 5 ;;
  p5r <- coeff parameters 5 ;;
  p5b <- coeff parameters 5 ;;
  p5t <- coeff parameters 5 ;;
  Ret {| l := F32.of_double (F64.mul (F64.of_float (F32.mul (F32.opp F32.one) aspect)) p5l);
         r := F32.of_double (F64.mul (F64.of_float (F32.mul F32.one aspect)) p5r);
         b := F32.of_double (F64.mul (F64.of_float (F32.opp F32.one)) p5b);
         t := F32.of_double (F64.mul (F64.of_float F32.one) p5t) |}.

Definition estimate_orthographic_camera
    (image_points : list Vec2f) (model_points : list Vec4f)
    (width height : Z) : program OrthographicRenderingParameters :=
  assert AssertSizesEqual (Nat.eqb (length image_points) (length model_points)) ;;
  assert AssertAtLeastSix (Nat.leb 6 (length image_points)) ;;
  let aspect := aspect_of width height in
  let num_params := 6%nat in
  let parameters := setConstant num_params F64.zero in
  parameters <- set_coeff parameters 5 initial_frustum_scale ;;
  let cost_function :=
    {| opp_image_points := image_points; opp_model_points := model_points;
       opp_width := width; opp_height := height |} in
  let cost_function_with_derivative :=
    {| nd_functor := cost_function; nd_epsfcn := numerical_diff_epsfcn |} in
  reply <- lm_minimize cost_function_with_derivative parameters ;;
  let info := fst reply in
  let parameters := snd reply in
  camera_frustum <- camera_frustum_of aspect parameters ;;
  p0 <- coeff parameters 0 ;;
  p1 <- coeff parameters 1 ;;
  p2 <- coeff parameters 2 ;;
  p3 <- coeff parameters 3 ;;
  p4 <- coeff parameters 4 ;;
  Ret {| r_x := F32.of_double p0; r_y := F32.of_double p1;
         r_z := F32.of_double p2; t_x := F32.of_double p3;
         t_y := F32.of_double p4; frustum := camera_frustum |}.

(** *** Running a program against a solver *)

Definition solver : Type := NumericalDiff -> VectorXd -> Status * VectorXd.

Fixpoint run {A : Type} (lm : solver) (p : program A) : outcome A :=
  match p with
  | Ret a => Returned a
  | Abort why => Aborted why
  | LmMinimize functor x k => run lm (k (lm functor x))
  end.

(** The first solver call a program makes, if it makes one. *)
Definition solver_call {A : Type} (p : program A)
  : option (NumericalDiff * VectorXd) :=
  match p with
  | LmMinimize functor x _ => Some (functor, x)
  | _ => None
  end.
End Program.

Arguments Ret {Status A} a.
Arguments Abort {Status A} why.
Arguments LmMinimize {Status A} functor x k.
Arguments run {Status A} lm p.
Arguments solver_call {Status A} p.

(** ** The steps of the function, named *)

(** What the function hands to the solver. *)
Definition solver_functor (image_points : list Vec2f) (model_points : list Vec4f)
    (width height : Z) : NumericalDiff :=
  {| nd_functor := {| opp_image_points := image_points;
                      opp_model_points := model_points;
                      opp_width := width; opp_height := height |};
     nd_epsfcn := F64.lit_0_0001 |}.

Definition initial_parameters : VectorXd :=
  [F64.zero; F64.zero; F64.zero; F64.zero; F64.zero; F64.lit_110].

(** The vector the solver leaves in [parameters]. *)
Definition solved_parameters {Status : Type} (lm : solver Status)
    (image_points : list Vec2f) (model_points : list Vec4f)
    (width height : Z) : VectorXd :=
  snd (lm (solver_functor image_points model_points width height) initial_parameters).

(** The record the function builds from a solved vector of six coefficients. *)
Definition packaged (aspect : F32.t) (p0 p1 p2 p3 p4 p5 : F64.t)
  : OrthographicRenderingParameters :=
  {| r_x := F32.of_double p0; r_y := F32.of_double p1; r_z := F32.of_double p2;
     t_x := F32.of_double p3; t_y := F32.of_double p4;
     frustum :=
       {| l := F32.of_double (F64.mul (F64.of_float (F32.mul (F32.opp F32.one) aspect)) p5);
          r := F32.of_double (F64.mul (F64.of_float (F32.mul F32.one aspect)) p5);
          b := F32.of_double (F64.mul (F64.of_float (F32.opp F32.one)) p5);
          t := F32.of_double (F64.mul (F64.of_float F32.one) p5) |} |}.

(** ** Rounded quotients *)

(** The quotient [A / B] rounded to the nearest integer, ties to even. *)
Definition rne (A B : Z) : Z :=
  match 2 * (A mod B) ?= B with
  | Lt => A / B
  | Eq => if Z.even (A / B) then A / B else A / B + 1
  | Gt => A / B + 1
  end.

(** [m] and [lc] are the integer part of [A / B] and the place of [A / B]
    between [m] and [m + 1]. *)
Definition inbetween (A B m : Z) (lc : location) : Prop :=
  exists rem, A = B * m + rem /\ 0 <= rem < B
    /\ lc = if rem =? 0 then loc_Exact else loc_Inexact (2 * rem ?= B).

(** The second half of [binary_round_aux]: what is done with the rounded
    mantissa. *)
Definition round_finish (prec emax : Z) (s : bool) (m e : Z) : spec_float :=
  let '(mrs, e') := shr_fexp prec emax m e loc_Exact in
  match shr_m mrs with
  | 0 => S754_zero s
  | Z.pos m' => if e' <=? emax - prec then S754_finite s m' e' else S754_infinity s
  | Z.neg _ => S754_nan
  end.

(** ** The rotation of the residual model *)

Record Vec3 := { vx : R; vy : R; vz : R }.
Record Mat3 := { row_x : Vec3; row_y : Vec3; row_z : Vec3 }.

Definition dot (u v : Vec3) : R := (vx u * vx v + vy u * vy v + vz u * vz v)%R.

Definition mat_vec (M : Mat3) (v : Vec3) : Vec3 :=
  {| vx := dot (row_x M) v; vy := dot (row_y M) v; vz := dot (row_z M) v |}.

Definition col_x (M : Mat3) : Vec3 :=
  {| vx := vx (row_x M); vy := vx (row_y M); vz := vx (row_z M) |}.
Definition col_y (M : Mat3) : Vec3 :=
  {| vx := vy (row_x M); vy := vy (row_y M); vz := vy (row_z M) |}.
Definition col_z (M : Mat3) : Vec3 :=
  {| vx := vz (row_x M); vy := vz (row_y M); vz := vz (row_z M) |}.

Definition row_mat (u : Vec3) (M : Mat3) : Vec3 :=
  {| vx := dot u (col_x M); vy := dot u (col_y M); vz := dot u (col_z M) |}.

Definition mat_mul (A B : Mat3) : Mat3 :=
  {| row_x := row_mat (row_x A) B; row_y := row_mat (row_y A) B;
     row_z := row_mat (row_z A) B |}.

(** Rotations by an angle in radians about the x axis (pitch, [r_x]), the y
    axis (yaw, [r_y]) and the z axis (roll, [r_z]). *)
Definition rot_x (a : R) : Mat3 :=
  {| row_x := {| vx := 1; vy := 0; vz := 0 |};
     row_y := {| vx := 0; vy := cos a; vz := - sin a |};
     row_z := {| vx := 0; vy := sin a; vz := cos a |} |}.
Definition rot_y (a : R) : Mat3 :=
  {| row_x := {| vx := cos a; vy := 0; vz := sin a |};
     row_y := {| vx := 0; vy := 1; vz := 0 |};
     row_z := {| vx := - sin a; vy := 0; vz := cos a |} |}.
Definition rot_z (a : R) : Mat3 :=
  {| row_x := {| vx := cos a; vy := - sin a; vz := 0 |};
     row_y := {| vx := sin a; vy := cos a; vz := 0 |};
     row_z := {| vx := 0; vy := 0; vz := 1 |} |}.

(** Modelled from the spec: the rotation step of the forward projection of the
    residual model ([detail::OrthographicParameterProjection], whose header is
    not part of the sources at hand).  Section 4.1 of the specification: the
    rotation is built from the three angles in the order roll after pitch
    after yaw; yaw is applied to the vertex first, then pitch, then roll. *)
Definition rotate_model_point (pitch yaw roll : R) (vertex : Vec3) : Vec3 :=
  let after_yaw := mat_vec (rot_y yaw) vertex in
  let after_pitch := mat_vec (rot_x pitch) after_yaw in
  mat_vec (rot_z roll) after_pitch.

(** ** Sample calls *)

Definition sample_image_point (n : Z) : Vec2f :=
  {| v2_0 := F32.of_int (100 + 20 * n); v2_1 := F32.of_int (80 + n * n) |}.

Definition sample_model_point (n : Z) : Vec4f :=
  {| v4_0 := F32.of_int (n - 3); v4_1 := F32.of_int (2 * n - 5);
     v4_2 := F32.of_int (n * n - 4); v4_3 := F32.one |}.

Definition six_image_points : list Vec2f := map sample_image_point [0; 1; 2; 3; 4; 5].
Definition six_model_points : list Vec4f := map sample_model_point [0; 1; 2; 3; 4; 5].
Definition five_image_points : list Vec2f := map sample_image_point [0; 1; 2; 3; 4].
Definition five_model_points : list Vec4f := map sample_model_point [0; 1; 2; 3; 4].

(** A solver that gives up at once: the vector is left as it was. *)
Definition idle_solver : solver Z := fun _ x => (0, x).

(** A solver that answers with a given vector and a given status. *)
Definition scripted_solver (status : Z) (answer : VectorXd) : solver Z :=
  fun _ _ => (status, answer).

(** A solved vector: small angles, a translation, the scale 100. *)
Definition sample_solution : VectorXd :=
  [F64.div (F64.of_int 1) (F64.of_int 10); F64.div (F64.of_int (-1)) (F64.of_int 5);
   F64.div (F64.of_int 1) (F64.of_int 100); F64.of_int 3; F64.of_int (-2);
   F64.of_int 100].

(** Two solved scales at which rounding shows: [1 + 2^-24 + 2^-40], which
    narrows to the [float] above 1, and [-2^-200], which narrows to [-0.0f]. *)
Definition scale_just_above_one : F64.t := S754_finite false 4503599895810048 (-52).
Definition scale_tiny_negative : F64.t := S754_finite true 4503599627370496 (-252).

Definition solution_with_scale (scale : F64.t) : VectorXd :=
  [F64.zero; F64.zero; F64.zero; F64.zero; F64.zero; scale].

(** ** Observations on values and runs *)

(** The sign bit of a value; a NaN has none. *)
Definition SFsign (x : spec_float) : option bool :=
  match x with
  | S754_zero s | S754_infinity s | S754_finite s _ _ => Some s
  | S754_nan => None
  end.

(** The number of solver calls made when a program is run. *)
Fixpoint solver_calls {Status A : Type} (lm : solver Status) (p : program Status A) : nat :=
  match p with
  | Ret _ | Abort _ => 0%nat
  | LmMinimize functor x k => S (solver_calls lm (k (lm functor x)))
  end.

(** * Facts about the arithmetic *)

(** ** Signs

    Rounding to nearest, ties to even, is symmetric: the sign of a result is
    decided apart from its magnitude. *)

Section Signs.
Variables prec emax : Z.

Lemma binary_round_aux_negb (s : bool) (m e : Z) (lc : location) :
  binary_round_aux prec emax (negb s) m e lc
  = SFopp (binary_round_aux prec emax s m e lc).
Proof.
  unfold binary_round_aux.
  destruct (shr_fexp prec emax m e lc) as [mrs' e'].
  destruct (shr_fexp prec emax _ e' loc_Exact) as [mrs'' e''].
  destruct (shr_m mrs''); try reflexivity.
  destruct (e'' <=? emax - prec); reflexivity.
Qed.

Lemma binary_round_negb (s : bool) (m : positive) (e : Z) :
  binary_round prec emax (negb s) m e = SFopp (binary_round prec emax s m e).
Proof.
  unfold binary_round.
  destruct (shl_align m e _) as [mz ez].
  apply binary_round_aux_negb.
Qed.

Lemma SFmul_opp_l (x y : spec_float) :
  SFmul prec emax (SFopp x) y = SFopp (SFmul prec emax x y).
Proof.
  destruct x as [sx|sx| |sx mx ex], y as [sy|sy| |sy my ey]; simpl;
    try reflexivity; try (destruct sx, sy; reflexivity).
  replace (xorb (negb sx) sy) with (negb (xorb sx sy)) by (destruct sx, sy; reflexivity).
  apply binary_round_aux_negb.
Qed.

Lemma SFconvert_opp (x : spec_float) :
  SFconvert prec emax (SFopp x) = SFopp (SFconvert prec emax x).
Proof.
  destruct x as [s|s| |s m e]; try reflexivity.
  destruct s; simpl.
  - apply (binary_round_negb true).
  - apply (binary_round_negb false).
Qed.
End Signs.

(** A negative value is below its opposite, in the order of [<] on floats. *)
Lemma SFltb_neg_opp (x : spec_float) :
  SFltb x (S754_zero false) = true -> SFltb x (SFopp x) = true.
Proof.
  destruct x as [s|s| |s m e]; simpl; try discriminate.
  - destruct s; [reflexivity | discriminate].
  - destruct s; unfold SFltb; simpl; [reflexivity | discriminate].
Qed.

(** ** Digits, shifts and the values of a format *)

Lemma fexp_eq prec emax e : fexp prec emax e = Z.max (e - prec) (3 - emax - prec).
Proof. reflexivity. Qed.

Lemma digits2_pos_size (p : positive) : digits2_pos p = Pos.size p.
Proof. induction p; simpl; congruence. Qed.

Lemma Zdigits2_bounds (p : positive) :
  2 ^ (Z.pos (digits2_pos p) - 1) <= Z.pos p < 2 ^ Z.pos (digits2_pos p).
Proof.
  rewrite digits2_pos_size.
  pose proof (Pos.size_gt p) as Hgt. pose proof (Pos.size_le p) as Hle.
  apply Pos2Z.pos_lt_pos in Hgt. apply Pos2Z.pos_le_pos in Hle.
  rewrite Pos2Z.inj_pow in Hgt, Hle.
  replace (Z.pos (Pos.size p)) with (Z.pos (Pos.size p) - 1 + 1) in Hle by lia.
  rewrite Z.pow_add_r in Hle by lia.
  change (2 ^ 1) with 2 in Hle. lia.
Qed.

Lemma Zdigits2_nonneg (m : Z) : 0 <= Zdigits2 m.
Proof. destruct m; simpl; lia. Qed.

Lemma Zdigits2_pow_bounds (m : Z) :
  0 < m -> 2 ^ (Zdigits2 m - 1) <= m < 2 ^ Zdigits2 m.
Proof. destruct m as [|p|p]; try lia. intros _. apply Zdigits2_bounds. Qed.

Lemma Zdigits2_ge (m k : Z) : 2 ^ (k - 1) <= m -> 0 < m -> k <= Zdigits2 m.
Proof.
  intros Hk Hm. pose proof (Zdigits2_pow_bounds m Hm) as [_ Hu].
  pose proof (Zdigits2_nonneg m).
  destruct (Z.le_gt_cases k (Zdigits2 m)) as [|Hlt]; [assumption|exfalso].
  assert (2 ^ Zdigits2 m <= 2 ^ (k - 1)) by (apply Z.pow_le_mono_r; lia).
  lia.
Qed.

Lemma Zdigits2_le (m k : Z) : m < 2 ^ k -> 0 <= k -> 0 <= m -> Zdigits2 m <= k.
Proof.
  intros Hk Hk0 Hm.
  destruct (Z.eq_dec m 0) as [->|Hne]; [simpl; lia|].
  pose proof (Zdigits2_pow_bounds m ltac:(lia)) as [Hl _].
  destruct (Z.le_gt_cases (Zdigits2 m) k) as [|Hlt]; [assumption|exfalso].
  assert (2 ^ k <= 2 ^ (Zdigits2 m - 1)) by (apply Z.pow_le_mono_r; lia).
  lia.
Qed.

Lemma Zdigits2_mono (a c : Z) : 0 <= a <= c -> Zdigits2 a <= Zdigits2 c.
Proof.
  intros [Ha Hac].
  destruct (Z.eq_dec a 0) as [->|Hne]; [apply Zdigits2_nonneg|].
  apply Zdigits2_ge; [|lia].
  pose proof (Zdigits2_pow_bounds a ltac:(lia)). lia.
Qed.

Lemma Zdigits2_div_pow2 (m n : Z) :
  0 < n -> 0 < m / 2 ^ n -> Zdigits2 (m / 2 ^ n) = Zdigits2 m - n.
Proof.
  intros Hn Hq.
  assert (Hp : 0 < 2 ^ n) by (apply Z.pow_pos_nonneg; lia).
  assert (Hm : 0 < m).
  { destruct (Z.lt_ge_cases 0 m); [assumption|].
    assert (m / 2 ^ n <= 0) by (apply Z.div_le_upper_bound; lia). lia. }
  pose proof (Zdigits2_pow_bounds m Hm) as [Hl Hu].
  pose proof (Zdigits2_pow_bounds _ Hq) as [Hl' Hu'].
  pose proof (Zdigits2_nonneg (m / 2 ^ n)) as Hd'.
  pose proof (Z.mul_div_le m (2 ^ n) Hp) as Hlow.
  pose proof (Z.mod_pos_bound m (2 ^ n) Hp) as Hmod.
  pose proof (Z.div_mod m (2 ^ n) ltac:(lia)) as Hdm.
  apply Z.le_antisymm.
  - (* m / 2^n < 2^(d - n) *)
    assert (Hdn : n < Zdigits2 m).
    { destruct (Z.lt_ge_cases n (Zdigits2 m)); [assumption|exfalso].
      assert (2 ^ Zdigits2 m <= 2 ^ n) by (apply Z.pow_le_mono_r; lia).
      assert (m / 2 ^ n = 0) by (apply Z.div_small; lia). lia. }
    apply Zdigits2_le; try lia.
    apply Z.div_lt_upper_bound; [lia|].
    rewrite <- Z.pow_add_r by lia.
    replace (n + (Zdigits2 m - n)) with (Zdigits2 m) by lia. assumption.
  - assert (Zdigits2 m <= Zdigits2 (m / 2 ^ n) + n); [|lia].
    apply Zdigits2_le; try lia.
    rewrite Z.pow_add_r by lia. nia.
Qed.

Lemma iter_pos_iter {A : Type} (f : A -> A) (p : positive) (x : A) :
  iter_pos f p x = Pos.iter f x p.
Proof.
  revert x. induction p as [p IH|p IH|]; intros x; simpl.
  - rewrite !IH, !Pos.iter_swap. reflexivity.
  - rewrite !IH. reflexivity.
  - reflexivity.
Qed.

Lemma shr_1_m (mrs : shr_record) :
  0 <= shr_m mrs -> shr_m (shr_1 mrs) = shr_m mrs / 2.
Proof.
  destruct mrs as [m rb sb]. simpl. intros Hm.
  destruct m as [|[p|p|]|p]; try lia; simpl shr_m.
  - reflexivity.
  - rewrite Pos2Z.inj_xI. apply Z.div_unique with (r := 1); lia.
  - rewrite Pos2Z.inj_xO. apply Z.div_unique with (r := 0); lia.
  - reflexivity.
Qed.

Lemma iter_shr_1_m (p : positive) (mrs : shr_record) :
  0 <= shr_m mrs ->
  shr_m (iter_pos shr_1 p mrs) = shr_m mrs / 2 ^ Z.pos p.
Proof.
  intros Hm. rewrite iter_pos_iter.
  induction p as [|p IH] using Pos.peano_ind.
  - simpl Pos.iter. rewrite shr_1_m by assumption. reflexivity.
  - rewrite Pos.iter_succ, shr_1_m.
    + rewrite IH, Pos2Z.inj_succ, Z.pow_succ_r by lia.
      rewrite Z.div_div by (try apply Z.pow_pos_nonneg; lia).
      f_equal. lia.
    + rewrite IH. apply Z.div_pos; [assumption|apply Z.pow_pos_nonneg; lia].
Qed.

Lemma shr_record_of_loc_m (m : Z) (lc : location) :
  shr_m (shr_record_of_loc m lc) = m.
Proof. destruct lc as [|[| |]]; reflexivity. Qed.

Section Format.
Variables prec emax : Z.
Hypothesis prec_pos : 0 < prec.

Lemma fexp_mono (a c : Z) : a <= c -> fexp prec emax a <= fexp prec emax c.
Proof. rewrite !fexp_eq. lia. Qed.

(** After the shift the exponent is the one the format gives to the mantissa. *)
Lemma shr_fexp_canonical (m e : Z) (lc : location) :
  0 <= m -> e <= fexp prec emax (Zdigits2 m + e) ->
  0 <= shr_m (fst (shr_fexp prec emax m e lc)) /\
  snd (shr_fexp prec emax m e lc)
  = fexp prec emax (Zdigits2 (shr_m (fst (shr_fexp prec emax m e lc)))
                    + snd (shr_fexp prec emax m e lc)).
Proof.
  intros Hm He. unfold shr_fexp, shr.
  destruct (fexp prec emax (Zdigits2 m + e) - e) as [|n|n] eqn:Hn; try lia;
    cbn [fst snd].
  - rewrite shr_record_of_loc_m. split; [assumption|lia].
  - rewrite iter_shr_1_m, shr_record_of_loc_m by (rewrite shr_record_of_loc_m; assumption).
    assert (Hp : 0 < 2 ^ Z.pos n) by (apply Z.pow_pos_nonneg; lia).
    assert (Hq : 0 <= m / 2 ^ Z.pos n) by (apply Z.div_pos; lia).
    split; [assumption|].
    destruct (Z.eq_dec (m / 2 ^ Z.pos n) 0) as [Hz|Hnz].
    + rewrite Hz. simpl Zdigits2.
      assert (Hlt : m < 2 ^ Z.pos n).
      { destruct (Z.lt_ge_cases m (2 ^ Z.pos n)); [assumption|].
        assert (1 <= m / 2 ^ Z.pos n) by (apply Z.div_le_lower_bound; lia). lia. }
      pose proof (Zdigits2_le m (Z.pos n) Hlt ltac:(lia) Hm).
      rewrite fexp_eq in Hn |- *. lia.
    + rewrite Zdigits2_div_pow2 by lia.
      replace (Zdigits2 m - Z.pos n + (e + Z.pos n)) with (Zdigits2 m + e) by lia.
      lia.
Qed.

Lemma round_nearest_even_range (m : Z) (lc : location) :
  m <= round_nearest_even m lc <= m + 1.
Proof.
  destruct lc as [|[| |]]; simpl; try lia.
  destruct (Z.even m); lia.
Qed.

(** Rounding gives a value of the format, when the number to round is written
    with at least as many digits as the format keeps. *)
Lemma binary_round_aux_valid (s : bool) (m e : Z) (lc : location) :
  0 <= m -> e <= fexp prec emax (Zdigits2 m + e) ->
  valid_binary prec emax (binary_round_aux prec emax s m e lc) = true.
Proof.
  intros Hm He. unfold binary_round_aux.
  pose proof (shr_fexp_canonical m e lc Hm He) as [Hm1 He1].
  destruct (shr_fexp prec emax m e lc) as [mrs1 e1]. cbn [fst snd] in Hm1, He1.
  pose proof (round_nearest_even_range (shr_m mrs1) (loc_of_shr_record mrs1)) as Hr.
  set (m2 := round_nearest_even (shr_m mrs1) (loc_of_shr_record mrs1)) in *.
  assert (He2 : e1 <= fexp prec emax (Zdigits2 m2 + e1)).
  { rewrite He1 at 1. apply fexp_mono.
    pose proof (Zdigits2_mono (shr_m mrs1) m2). lia. }
  pose proof (shr_fexp_canonical m2 e1 loc_Exact ltac:(lia) He2) as [Hm3 He3].
  destruct (shr_fexp prec emax m2 e1 loc_Exact) as [mrs3 e3]. cbn [fst snd] in Hm3, He3.
  destruct (shr_m mrs3) as [|m3|m3] eqn:Hm3e; try reflexivity.
  destruct (e3 <=? emax - prec) eqn:Hb; [|reflexivity].
  simpl. unfold bounded, canonical_mantissa. rewrite Hb, andb_true_r.
  apply Z.eqb_eq. simpl Zdigits2 in He3. symmetry. exact He3.
Qed.

Lemma digits2_pos_iter_xO (m d : positive) :
  Z.pos (digits2_pos (Pos.iter xO m d)) = Z.pos (digits2_pos m) + Z.pos d.
Proof.
  induction d as [|d IH] using Pos.peano_ind.
  - simpl. lia.
  - rewrite Pos.iter_succ. simpl digits2_pos. lia.
Qed.

Lemma binary_round_valid (s : bool) (m : positive) (e : Z) :
  valid_binary prec emax (binary_round prec emax s m e) = true.
Proof.
  unfold binary_round, shl_align.
  destruct (fexp prec emax (Z.pos (digits2_pos m) + e) - e) as [|d|d] eqn:Hd;
    apply binary_round_aux_valid; try assumption; try lia.
  - simpl Zdigits2. lia.
  - simpl Zdigits2. lia.
  - simpl Zdigits2. rewrite digits2_pos_iter_xO.
    replace (Z.pos (digits2_pos m) + Z.pos d + fexp prec emax (Z.pos (digits2_pos m) + e))
      with (Z.pos (digits2_pos m) + e) by lia.
    lia.
Qed.

Lemma SFconvert_valid (x : spec_float) :
  valid_binary prec emax (SFconvert prec emax x) = true.
Proof.
  destruct x as [s|s| |s m e]; try reflexivity.
  destruct s; apply binary_round_valid.
Qed.
End Format.

(** ** Multiplication by one

    [1 * x] is [x] for every value [x] of the format: the product of the
    mantissas is the mantissa of [x] followed by zeros, which the rounding
    shifts out again with nothing lost. *)

Ltac mul_one_l x shift :=
  unfold valid_binary, bounded, canonical_mantissa;
  destruct x as [s|s| |s m e]; try reflexivity;
  let H := fresh "H" in
  let Hc := fresh "Hc" in
  let Hb := fresh "Hb" in
  intros H; apply andb_prop in H; destruct H as [Hc Hb];
  apply Z.eqb_eq in Hc; rewrite fexp_eq in Hc;
  cbv beta iota delta [SFmul binary_round_aux shr_fexp xorb];
  cbn [Pos.mul Zdigits2 digits2_pos];
  match goal with
  | |- context [shr _ _ ?sh] => replace sh with shift by (rewrite fexp_eq; lia)
  end;
  cbn [shr shr_record_of_loc iter_pos shr_1 orb];
  cbn [shr_m shr_r shr_s loc_of_shr_record round_nearest_even Zdigits2];
  match goal with
  | |- context [shr _ _ ?sh] => replace sh with 0 by (rewrite fexp_eq; lia)
  end;
  cbn [shr shr_record_of_loc shr_m];
  match goal with
  | |- context [S754_finite _ _ ?e'] => replace e' with e by lia
  end;
  rewrite Hb; reflexivity.

Lemma F32_mul_one_l (x : F32.t) :
  F32.valid x = true -> F32.mul F32.one x = x.
Proof.
  unfold F32.valid, F32.mul, F32.one, F32.prec, F32.emax. mul_one_l x 23.
Qed.

Lemma F64_mul_one_l (x : F64.t) :
  F64.valid x = true -> F64.mul F64.one x = x.
Proof.
  unfold F64.valid, F64.mul, F64.one, F64.prec, F64.emax. mul_one_l x 52.
Qed.

(** The literals are the numbers they spell. *)
Lemma literals :
  F32.one = F32.of_int 1
  /\ F64.one = F64.of_float F32.one
  /\ F64.lit_110 = F64.of_int 110
  /\ F64.lit_0_0001 = F64.div (F64.of_int 1) (F64.of_int 10000).
Proof. repeat split. Qed.

(** ** Quotients

    The division rounds the exact quotient: its result is a property of the
    ratio of its operands. *)

Lemma new_location_inbetween (B rem : Z) :
  0 < B -> 0 <= rem < B ->
  new_location B rem = if rem =? 0 then loc_Exact else loc_Inexact (2 * rem ?= B).
Proof.
  intros HB Hr. unfold new_location, new_location_even, new_location_odd.
  destruct (Z.even B) eqn:He.
  - reflexivity.
  - destruct (rem =? 0); [reflexivity|]. f_equal.
    assert (Ho : Z.odd B = true) by (rewrite <- Z.negb_even, He; reflexivity).
    apply Z.odd_spec in Ho. destruct Ho as [c Hc].
    destruct (Z.compare_spec (2 * rem + 1) B), (Z.compare_spec (2 * rem) B);
      try reflexivity; lia.
Qed.

Lemma inbetween_div_eucl (A B : Z) :
  0 < B ->
  inbetween A B (fst (Z.div_eucl A B)) (new_location B (snd (Z.div_eucl A B))).
Proof.
  intros HB. pose proof (Z_div_mod A B ltac:(lia)) as H.
  destruct (Z.div_eucl A B) as [q rem]. destruct H as [H1 H2]. cbn [fst snd].
  exists rem. repeat split; try lia. apply new_location_inbetween; lia.
Qed.

Lemma inbetween_shr_1 (A B : Z) (mrs : shr_record) :
  0 < B -> 0 <= shr_m mrs ->
  inbetween A B (shr_m mrs) (loc_of_shr_record mrs) ->
  inbetween A (B * 2) (shr_m (shr_1 mrs)) (loc_of_shr_record (shr_1 mrs)).
Proof.
  intros HB Hm (rem & HA & Hr & Hl).
  destruct mrs as [m rb sb]. cbn [shr_m] in *.
  assert (Hs : orb rb sb = negb (rem =? 0)).
  { destruct (rem =? 0), rb, sb; simpl in Hl; try discriminate; try reflexivity;
      destruct (2 * rem ?= B); discriminate. }
  assert (Hc : forall rem', 0 <= rem' < B -> (2 * rem' ?= B * 2) = Lt)
    by (intros; apply Z.compare_lt_iff; lia).
  assert (Hc' : forall rem', 0 < rem' -> (2 * (B + rem') ?= B * 2) = Gt)
    by (intros; apply Z.compare_gt_iff; lia).
  assert (Hc0 : (2 * (B + 0) ?= B * 2) = Eq)
    by (apply Z.compare_eq_iff; lia).
  destruct m as [|[p|p|]|p]; try lia; unfold shr_1; rewrite Hs; cbn [shr_m].
  - (* m = 0 *)
    exists rem. split; [lia|]. split; [lia|].
    destruct (Z.eqb_spec rem 0); cbn [negb loc_of_shr_record]; [reflexivity|].
    rewrite Hc by lia. reflexivity.
  - (* m = 2p + 1 *)
    exists (B + rem). split; [lia|]. split; [lia|].
    destruct (Z.eqb_spec (B + rem) 0); [lia|].
    destruct (Z.eqb_spec rem 0) as [->|]; cbn [negb loc_of_shr_record].
    + rewrite Hc0. reflexivity.
    + rewrite Hc' by lia. reflexivity.
  - (* m = 2p *)
    exists rem. split; [lia|]. split; [lia|].
    destruct (Z.eqb_spec rem 0); cbn [negb loc_of_shr_record]; [reflexivity|].
    rewrite Hc by lia. reflexivity.
  - (* m = 1 *)
    exists (B + rem). split; [lia|]. split; [lia|].
    destruct (Z.eqb_spec (B + rem) 0); [lia|].
    destruct (Z.eqb_spec rem 0) as [->|]; cbn [negb loc_of_shr_record].
    + rewrite Hc0. reflexivity.
    + rewrite Hc' by lia. reflexivity.
Qed.

Lemma shr_1_nonneg (mrs : shr_record) : 0 <= shr_m mrs -> 0 <= shr_m (shr_1 mrs).
Proof. intros H. rewrite shr_1_m by assumption. apply Z.div_pos; lia. Qed.

Lemma inbetween_iter_shr_1 (A B : Z) (n : positive) (mrs : shr_record) :
  0 < B -> 0 <= shr_m mrs ->
  inbetween A B (shr_m mrs) (loc_of_shr_record mrs) ->
  0 <= shr_m (iter_pos shr_1 n mrs)
  /\ inbetween A (B * 2 ^ Z.pos n) (shr_m (iter_pos shr_1 n mrs))
       (loc_of_shr_record (iter_pos shr_1 n mrs)).
Proof.
  intros HB Hm Hi. rewrite iter_pos_iter.
  induction n as [|n IH] using Pos.peano_ind.
  - simpl Pos.iter. split; [apply shr_1_nonneg; assumption|].
    change (2 ^ 1) with 2. apply inbetween_shr_1; assumption.
  - rewrite Pos.iter_succ. destruct IH as [IH1 IH2].
    split; [apply shr_1_nonneg; assumption|].
    rewrite Pos2Z.inj_succ, Z.pow_succ_r by lia.
    replace (B * (2 * 2 ^ Z.pos n)) with (B * 2 ^ Z.pos n * 2) by lia.
    apply inbetween_shr_1; try assumption.
    assert (0 < 2 ^ Z.pos n) by (apply Z.pow_pos_nonneg; lia). nia.
Qed.

Lemma loc_of_shr_record_of_loc (m : Z) (lc : location) :
  loc_of_shr_record (shr_record_of_loc m lc) = lc.
Proof. destruct lc as [|[| |]]; reflexivity. Qed.

Lemma round_nearest_even_inbetween (A B m : Z) (lc : location) :
  0 < B -> inbetween A B m lc -> round_nearest_even m lc = rne A B.
Proof.
  intros HB (rem & HA & Hr & Hl). unfold rne.
  assert (Hq : A / B = m) by (symmetry; apply Z.div_unique with (r := rem); lia).
  assert (Hm : A mod B = rem) by (symmetry; apply Z.mod_unique with (q := m); lia).
  rewrite Hq, Hm. subst lc.
  destruct (Z.eqb_spec rem 0) as [->|Hne]; simpl.
  - destruct B; lia.
  - destruct (2 * rem ?= B); reflexivity.
Qed.

(** The rounded quotient is a property of the ratio. *)
Lemma rne_ratio (A B A' B' : Z) :
  0 < B -> 0 < B' -> A * B' = A' * B -> rne A B = rne A' B'.
Proof.
  intros HB HB' Heq. unfold rne.
  pose proof (Z.div_mod A B ltac:(lia)) as Hd.
  pose proof (Z.div_mod A' B' ltac:(lia)) as Hd'.
  pose proof (Z.mod_pos_bound A B HB) as Hr.
  pose proof (Z.mod_pos_bound A' B' HB') as Hr'.
  set (q := A / B) in *. set (q' := A' / B') in *.
  set (rem := A mod B) in *. set (rem' := A' mod B') in *.
  clearbody q q' rem rem'.
  assert (Hqq : q = q').
  { assert (B * B' * (q - q') = rem' * B - rem * B') by nia.
    assert (- (B * B') < B * B' * (q - q') < B * B') by nia.
    nia. }
  subst q'.
  assert (Hrr : rem * B' = rem' * B) by nia.
  assert (Hc : (2 * rem ?= B) = (2 * rem' ?= B')).
  { destruct (Z.compare_spec (2 * rem) B), (Z.compare_spec (2 * rem') B');
      try reflexivity; exfalso; nia. }
  rewrite Hc. reflexivity.
Qed.

Section Quotients.
Variables prec emax : Z.
Hypothesis prec_pos : 0 < prec.

Lemma binary_round_aux_finish (s : bool) (m e : Z) (lc : location) :
  binary_round_aux prec emax s m e lc
  = round_finish prec emax s
      (round_nearest_even (shr_m (fst (shr_fexp prec emax m e lc)))
         (loc_of_shr_record (fst (shr_fexp prec emax m e lc))))
      (snd (shr_fexp prec emax m e lc)).
Proof.
  unfold binary_round_aux, round_finish.
  destruct (shr_fexp prec emax m e lc) as [mrs' e']. reflexivity.
Qed.

(** Rounding a quotient known by its integer part and its location: the
    mantissa is the quotient at the exponent of the format, rounded. *)
Lemma binary_round_aux_inbetween (s : bool) (A B q e : Z) (lc : location) :
  0 < B -> 0 <= q -> inbetween A B q lc ->
  e <= fexp prec emax (Zdigits2 q + e) ->
  binary_round_aux prec emax s q e lc
  = round_finish prec emax s
      (rne A (B * 2 ^ (fexp prec emax (Zdigits2 q + e) - e)))
      (fexp prec emax (Zdigits2 q + e)).
Proof.
  intros HB Hq Hi He. rewrite binary_round_aux_finish.
  unfold shr_fexp, shr.
  destruct (fexp prec emax (Zdigits2 q + e) - e) as [|n|n] eqn:Hn; try lia;
    cbn [fst snd].
  - rewrite shr_record_of_loc_m, loc_of_shr_record_of_loc.
    rewrite (round_nearest_even_inbetween A B q lc HB Hi).
    f_equal; [f_equal|]; lia.
  - destruct (inbetween_iter_shr_1 A B n (shr_record_of_loc q lc) HB) as [_ Hi'].
    + rewrite shr_record_of_loc_m. assumption.
    + rewrite shr_record_of_loc_m, loc_of_shr_record_of_loc. assumption.
    + assert (0 < 2 ^ Z.pos n) by (apply Z.pow_pos_nonneg; lia).
      rewrite (round_nearest_even_inbetween A (B * 2 ^ Z.pos n) _ _ ltac:(nia) Hi').
      f_equal. lia.
Qed.

(** What the division hands to the rounding. *)
Lemma SFdiv_core_binary_spec (mx my : positive) (ex ey : Z) :
  exists q e lc,
    SFdiv_core_binary prec emax (Z.pos mx) ex (Z.pos my) ey = (q, e, lc)
    /\ e = Z.min (fexp prec emax (Zdigits2 (Z.pos mx) + ex - (Zdigits2 (Z.pos my) + ey)))
           (ex - ey)
    /\ 0 <= q
    /\ inbetween (Z.pos mx * 2 ^ (ex - ey - e)) (Z.pos my) q lc
    /\ e <= fexp prec emax (Zdigits2 q + e).
Proof.
  unfold SFdiv_core_binary.
  set (d1 := Zdigits2 (Z.pos mx)). set (d2 := Zdigits2 (Z.pos my)).
  set (e' := Z.min (fexp prec emax (d1 + ex - (d2 + ey))) (ex - ey)).
  set (sh := ex - ey - e').
  set (m' := match sh with Z.pos _ => Z.shiftl (Z.pos mx) sh | 0 => Z.pos mx | Z.neg _ => 0 end).
  assert (Hsh : 0 <= sh) by (unfold sh, e'; lia).
  assert (Hm' : m' = Z.pos mx * 2 ^ sh).
  { unfold m'. destruct sh as [|p|p] eqn:Hs; try lia.
    apply Z.shiftl_mul_pow2. lia. }
  clearbody m'.
  pose proof (inbetween_div_eucl m' (Z.pos my) ltac:(lia)) as Hi.
  pose proof (Z_div_mod m' (Z.pos my) ltac:(lia)) as Hdm.
  destruct (Z.div_eucl m' (Z.pos my)) as [q rem]. destruct Hdm as [Hdm Hr].
  cbn [fst snd] in Hi.
  exists q, e', (new_location (Z.pos my) rem).
  assert (Hp : 0 < 2 ^ sh) by (apply Z.pow_pos_nonneg; lia).
  assert (Hq : 0 <= q) by nia.
  split; [reflexivity|]. split; [reflexivity|]. split; [assumption|].
  split; [fold sh; rewrite <- Hm'; assumption|].
  rewrite fexp_eq.
  destruct (Z.le_gt_cases e' (3 - emax - prec)) as [|Hgt]; [lia|].
  assert (He' : e' <= d1 + ex - (d2 + ey) - prec).
  { unfold e' in *. rewrite fexp_eq in *. lia. }
  assert (Hshe : sh = ex - ey - e') by reflexivity.
  clearbody sh. clearbody e'.
  assert (Hk : d1 - d2 + sh <= Zdigits2 q); [|lia].
  pose proof (Zdigits2_bounds mx) as [Hl1 _]. fold (Zdigits2 (Z.pos mx)) in Hl1. fold d1 in Hl1.
  pose proof (Zdigits2_bounds my) as [_ Hu2]. fold (Zdigits2 (Z.pos my)) in Hu2. fold d2 in Hu2.
  assert (Hd2 : 0 <= d2) by apply Zdigits2_nonneg.
  assert (Hd1 : 0 < d1) by (unfold d1; simpl; lia).
  clearbody d1 d2.
  assert (Hk1 : 1 <= d1 - d2 + sh) by lia.
  assert (Hpow : 2 ^ (d1 - d2 + sh - 1) * 2 ^ d2 = 2 ^ (d1 - 1) * 2 ^ sh).
  { rewrite <- !Z.pow_add_r by lia. f_equal. lia. }
  assert (Hpk : 0 < 2 ^ (d1 - d2 + sh - 1)) by (apply Z.pow_pos_nonneg; lia).
  assert (Hqk : 2 ^ (d1 - d2 + sh - 1) <= q).
  { destruct (Z.le_gt_cases (2 ^ (d1 - d2 + sh - 1)) q); [assumption|exfalso].
    assert (q + 1 <= 2 ^ (d1 - d2 + sh - 1)) by lia.
    assert (m' < Z.pos my * 2 ^ (d1 - d2 + sh - 1)) by nia.
    assert (Z.pos my * 2 ^ (d1 - d2 + sh - 1) <= 2 ^ d2 * 2 ^ (d1 - d2 + sh - 1)) by nia.
    nia. }
  apply Zdigits2_ge; lia.
Qed.

Lemma SFdiv_valid (x y : spec_float) :
  valid_binary prec emax (SFdiv prec emax x y) = true.
Proof.
  destruct x as [sx|sx| |sx mx ex], y as [sy|sy| |sy my ey]; try reflexivity.
  unfold SFdiv.
  destruct (SFdiv_core_binary_spec mx my ex ey) as (q & e & lc & -> & _ & Hq & _ & He).
  apply binary_round_aux_valid; assumption.
Qed.

(** The quotient of two finite values: the ratio of the mantissas, scaled to
    the exponent of the format and rounded. *)
Lemma SFdiv_finite (sx sy : bool) (mx my : positive) (ex ey : Z) :
  exists q e,
    0 <= q
    /\ e = Z.min (fexp prec emax (Zdigits2 (Z.pos mx) + ex - (Zdigits2 (Z.pos my) + ey)))
           (ex - ey)
    /\ Z.pos my * q <= Z.pos mx * 2 ^ (ex - ey - e) < Z.pos my * (q + 1)
    /\ e <= fexp prec emax (Zdigits2 q + e)
    /\ SFdiv prec emax (S754_finite sx mx ex) (S754_finite sy my ey)
       = round_finish prec emax (xorb sx sy)
           (rne (Z.pos mx * 2 ^ (ex - ey - e))
                (Z.pos my * 2 ^ (fexp prec emax (Zdigits2 q + e) - e)))
           (fexp prec emax (Zdigits2 q + e)).
Proof.
  destruct (SFdiv_core_binary_spec mx my ex ey) as (q & e & lc & Hc & He & Hq & Hi & Hle).
  exists q, e. split; [assumption|]. split; [assumption|]. split.
  - destruct Hi as (rem & HA & Hr & _). lia.
  - split; [assumption|]. unfold SFdiv. rewrite Hc.
    apply binary_round_aux_inbetween; try assumption. lia.
Qed.
End Quotients.

(** The binary order of magnitude of a ratio is a property of the ratio. *)
Lemma magnitude_unique (a c a' c' d d' u u' : Z) :
  0 < a -> 0 < c -> 0 < a' -> 0 < c' ->
  0 <= u -> 0 <= u' -> 0 < d -> 0 < d' ->
  c * 2 ^ (d - 1) <= a * 2 ^ u < c * 2 ^ d ->
  c' * 2 ^ (d' - 1) <= a' * 2 ^ u' < c' * 2 ^ d' ->
  a * c' = a' * c ->
  d - u = d' - u'.
Proof.
  assert (Hhalf : forall a c a' c' d d' u u',
    0 < a -> 0 < c -> 0 < a' -> 0 < c' ->
    0 <= u -> 0 <= u' -> 0 < d -> 0 < d' ->
    a * 2 ^ u < c * 2 ^ d ->
    c' * 2 ^ (d' - 1) <= a' * 2 ^ u' ->
    a * c' = a' * c ->
    d' - u' <= d - u).
  { clear. intros a c a' c' d d' u u' Ha Hc Ha' Hc' Hu Hu' Hd Hd' Hup Hlow Heq.
    destruct (Z.le_gt_cases (d' - u') (d - u)) as [|Hlt]; [assumption|exfalso].
    assert (Hpow : 2 ^ d * 2 ^ u' <= 2 ^ (d' - 1) * 2 ^ u).
    { rewrite <- !Z.pow_add_r by lia. apply Z.pow_le_mono_r; lia. }
    assert (Hpu : 0 < 2 ^ u) by (apply Z.pow_pos_nonneg; lia).
    assert (Hpu' : 0 < 2 ^ u') by (apply Z.pow_pos_nonneg; lia).
    assert (Hpd : 0 < 2 ^ d) by (apply Z.pow_pos_nonneg; lia).
    assert (Hpd' : 0 < 2 ^ (d' - 1)) by (apply Z.pow_pos_nonneg; lia).
    set (P := 2 ^ u) in *. set (P' := 2 ^ u') in *.
    set (Q := 2 ^ d) in *. set (Q' := 2 ^ (d' - 1)) in *.
    clearbody P P' Q Q'.
    assert (H1 : (a * P) * (c' * P') < (c * Q) * (c' * P')).
    { apply Z.mul_lt_mono_pos_r; [nia|assumption]. }
    assert (H2 : (c' * Q') * (c * P) <= (a' * P') * (c * P)).
    { apply Z.mul_le_mono_nonneg_r; [nia|assumption]. }
    assert (H3 : (c * c') * (Q * P') <= (c * c') * (Q' * P)).
    { apply Z.mul_le_mono_nonneg_l; [nia|assumption]. }
    assert (H4 : (a * P) * (c' * P') = (a' * P') * (c * P)).
    { replace ((a * P) * (c' * P')) with ((a * c') * (P * P')) by ring.
      rewrite Heq. ring. }
    replace ((c * Q) * (c' * P')) with ((c * c') * (Q * P')) in H1 by ring.
    replace ((c' * Q') * (c * P)) with ((c * c') * (Q' * P)) in H2 by ring.
    lia. }
  intros Ha Hc Ha' Hc' Hu Hu' Hd Hd' [Hl Hup] [Hl' Hup'] Heq.
  apply Z.le_antisymm.
  - apply (Hhalf a' c' a c d' d u' u); auto.
  - apply (Hhalf a c a' c' d d' u u'); auto.
Qed.

Lemma Pos2Z_iter_xO (p d : positive) :
  Z.pos (Pos.iter xO p d) = Z.pos p * 2 ^ Z.pos d.
Proof.
  induction d as [|d IH] using Pos.peano_ind.
  - simpl. lia.
  - rewrite Pos.iter_succ, Pos2Z.inj_xO, IH, Pos2Z.inj_succ, Z.pow_succ_r by lia. ring.
Qed.

(** A value of the format, rounded, is itself. *)
Lemma binary_round_aux_canonical (prec emax : Z) (s : bool) (m : positive) (e : Z) :
  bounded prec emax m e = true ->
  binary_round_aux prec emax s (Z.pos m) e loc_Exact = S754_finite s m e.
Proof.
  unfold bounded, canonical_mantissa. intros H.
  apply andb_prop in H. destruct H as [Hc Hb]. apply Z.eqb_eq in Hc.
  unfold binary_round_aux, shr_fexp. cbn [Zdigits2].
  rewrite Hc, Z.sub_diag. cbn [shr shr_record_of_loc shr_m loc_of_shr_record
    round_nearest_even Zdigits2].
  rewrite Hc, Z.sub_diag. cbn [shr shr_record_of_loc shr_m].
  rewrite Hb. reflexivity.
Qed.

(** A small positive [int] is a [float]: its digits, moved to the top of the
    mantissa. *)
Lemma F32_of_int_small (a : Z) :
  0 < a < 2 ^ 24 ->
  exists m e,
    F32.of_int a = S754_finite false m e
    /\ -23 <= e <= 0
    /\ Z.pos m = a * 2 ^ (- e)
    /\ Zdigits2 (Z.pos m) = 24.
Proof.
  intros [Ha Hb]. destruct a as [|p|p]; try lia.
  unfold F32.of_int, binary_normalize, binary_round, shl_align.
  assert (Hd : Z.pos (digits2_pos p) <= 24).
  { apply (Zdigits2_le (Z.pos p) 24); lia. }
  assert (Hf : fexp F32.prec F32.emax (Z.pos (digits2_pos p) + 0)
               = Z.pos (digits2_pos p) - 24).
  { rewrite fexp_eq. unfold F32.prec, F32.emax. lia. }
  rewrite Hf.
  destruct (Z.pos (digits2_pos p) - 24 - 0) as [|d|d] eqn:Hsh; try lia.
  - exists p, 0. split.
    + apply binary_round_aux_canonical.
      unfold bounded, canonical_mantissa. rewrite Hf.
      apply andb_true_intro. split; [apply Z.eqb_eq; lia|reflexivity].
    + split; [lia|]. split; [simpl; lia|]. simpl. lia.
  - exists (Pos.iter xO p d), (Z.pos (digits2_pos p) - 24). split.
    + apply binary_round_aux_canonical.
      unfold bounded, canonical_mantissa.
      rewrite digits2_pos_iter_xO, fexp_eq. unfold F32.prec, F32.emax.
      apply andb_true_intro. split; [apply Z.eqb_eq; lia|apply Z.leb_le; lia].
    + split; [lia|]. split.
      * rewrite Pos2Z_iter_xO. f_equal. f_equal. lia.
      * simpl Zdigits2. rewrite digits2_pos_iter_xO. lia.
Qed.

(** The integer part of the scaled quotient of two such mantissas gives the
    magnitude of the ratio of the [int]s. *)
Lemma quotient_magnitude (w h : Z) (mw mh : positive) (ew eh q : Z) :
  0 < w -> 0 < h -> ew <= 0 -> -23 <= eh <= 0 ->
  Z.pos mw = w * 2 ^ (- ew) -> Z.pos mh = h * 2 ^ (- eh) ->
  Zdigits2 (Z.pos mw) = 24 -> Zdigits2 (Z.pos mh) = 24 ->
  Z.pos mh * q <= Z.pos mw * 2 ^ 24 < Z.pos mh * (q + 1) ->
  0 < Zdigits2 q
  /\ h * 2 ^ (Zdigits2 q - 1) <= w * 2 ^ (24 - ew + eh) < h * 2 ^ Zdigits2 q.
Proof.
  intros Hw Hh Hew Heh Hmw Hmh Hdw Hdh Hin.
  pose proof (Zdigits2_pow_bounds (Z.pos mw) ltac:(lia)) as Hbw. rewrite Hdw in Hbw.
  pose proof (Zdigits2_pow_bounds (Z.pos mh) ltac:(lia)) as Hbh. rewrite Hdh in Hbh.
  change (2 ^ (24 - 1)) with 8388608 in *. change (2 ^ 24) with 16777216 in *.
  assert (Hq : 8388608 <= q) by nia.
  pose proof (Zdigits2_pow_bounds q ltac:(lia)) as Hbq.
  assert (Hdq : 0 < Zdigits2 q).
  { destruct q; simpl; lia. }
  split; [assumption|].
  assert (Hpu : 2 ^ (24 - ew + eh) * 2 ^ (- eh) = 16777216 * 2 ^ (- ew)).
  { rewrite <- Z.pow_add_r by lia. replace (24 - ew + eh + - eh) with (24 + - ew) by lia.
    rewrite Z.pow_add_r by lia. reflexivity. }
  assert (Hph : 0 < 2 ^ (- eh)) by (apply Z.pow_pos_nonneg; lia).
  assert (Hpw : 0 < 2 ^ (- ew)) by (apply Z.pow_pos_nonneg; lia).
  assert (Hpq : 0 < 2 ^ (Zdigits2 q - 1)) by (apply Z.pow_pos_nonneg; lia).
  set (U := 2 ^ (24 - ew + eh)) in *. set (Ph := 2 ^ (- eh)) in *.
  set (Pw := 2 ^ (- ew)) in *. set (Ql := 2 ^ (Zdigits2 q - 1)) in *.
  set (Qu := 2 ^ Zdigits2 q) in *.
  clearbody U Ph Pw Ql Qu. rewrite Hmw, Hmh in Hin.
  assert (Hwu : w * Pw * 16777216 = w * U * Ph).
  { replace (w * Pw * 16777216) with (w * (16777216 * Pw)) by ring.
    rewrite <- Hpu. ring. }
  rewrite Hwu in Hin.
  split.
  - apply Z.mul_le_mono_pos_r with (p := Ph); [assumption|].
    apply Z.le_trans with (h * Ph * q); [|lia].
    replace (h * Ql * Ph) with (h * Ph * Ql) by ring.
    apply Z.mul_le_mono_nonneg_l; nia.
  - apply Z.mul_lt_mono_pos_r with (p := Ph); [assumption|].
    apply Z.lt_le_trans with (h * Ph * (q + 1)); [lia|].
    replace (h * Qu * Ph) with (h * Ph * Qu) by ring.
    apply Z.mul_le_mono_nonneg_l; nia.
Qed.

(** The quotient of two small positive [int]s, as the aspect is computed, is a
    property of their ratio. *)
Lemma aspect_of_ratio (w h w' h' : Z) :
  0 < w < 2 ^ 24 -> 0 < h < 2 ^ 24 -> 0 < w' < 2 ^ 24 -> 0 < h' < 2 ^ 24 ->
  w * h' = w' * h ->
  aspect_of w h = aspect_of w' h'.
Proof.
  intros Hw Hh Hw' Hh' Hratio. unfold aspect_of, F32.div.
  destruct (F32_of_int_small w Hw) as (mw & ew & -> & Hew & Hmw & Hdw).
  destruct (F32_of_int_small h Hh) as (mh & eh & -> & Heh & Hmh & Hdh).
  destruct (F32_of_int_small w' Hw') as (mw' & ew' & -> & Hew' & Hmw' & Hdw').
  destruct (F32_of_int_small h' Hh') as (mh' & eh' & -> & Heh' & Hmh' & Hdh').
  destruct (SFdiv_finite F32.prec F32.emax ltac:(reflexivity) false false mw mh ew eh)
    as (q & e & Hq & He & Hin & Hle & ->).
  destruct (SFdiv_finite F32.prec F32.emax ltac:(reflexivity) false false mw' mh' ew' eh')
    as (q' & e' & Hq' & He' & Hin' & Hle' & ->).
  rewrite Hdw, Hdh, fexp_eq in He. rewrite Hdw', Hdh', fexp_eq in He'.
  unfold F32.prec, F32.emax in He, He'.
  assert (Hee : e = ew - eh - 24) by lia.
  assert (Hee' : e' = ew' - eh' - 24) by lia.
  clear He He'.
  replace (ew - eh - e) with 24 in * by lia.
  replace (ew' - eh' - e') with 24 in * by lia.
  destruct (quotient_magnitude w h mw mh ew eh q) as [Hdq Hmag]; try lia.
  destruct (quotient_magnitude w' h' mw' mh' ew' eh' q') as [Hdq' Hmag']; try lia.
  assert (Hg : Zdigits2 q - (24 - ew + eh) = Zdigits2 q' - (24 - ew' + eh')).
  { apply (magnitude_unique w h w' h'); try assumption; lia. }
  replace (Zdigits2 q' + e') with (Zdigits2 q + e) in * by lia.
  set (E := fexp F32.prec F32.emax (Zdigits2 q + e)) in *.
  f_equal. apply rne_ratio.
  - assert (0 < 2 ^ (E - e)) by (apply Z.pow_pos_nonneg; lia). lia.
  - assert (0 < 2 ^ (E - e')) by (apply Z.pow_pos_nonneg; lia). lia.
  - rewrite Hmw, Hmh, Hmw', Hmh'.
    assert (Hp : 2 ^ (- ew) * 2 ^ (- eh') * 2 ^ (E - e')
                 = 2 ^ (- ew') * 2 ^ (- eh) * 2 ^ (E - e)).
    { rewrite <- !Z.pow_add_r by lia. f_equal. lia. }
    replace (w * 2 ^ (- ew) * 2 ^ 24 * (h' * 2 ^ (- eh') * 2 ^ (E - e')))
      with (w * h' * 2 ^ 24 * (2 ^ (- ew) * 2 ^ (- eh') * 2 ^ (E - e'))) by ring.
    rewrite Hp, Hratio. ring.
Qed.

(** * Facts about the rotation *)

Lemma mat_vec_mul (A B : Mat3) (v : Vec3) :
  mat_vec (mat_mul A B) v = mat_vec A (mat_vec B v).
Proof.
  destruct A as [[a11 a12 a13] [a21 a22 a23] [a31 a32 a33]].
  destruct B as [[b11 b12 b13] [b21 b22 b23] [b31 b32 b33]].
  destruct v as [x y z].
  unfold mat_vec, mat_mul, row_mat, dot, col_x, col_y, col_z; cbn.
  f_equal; ring.
Qed.

Lemma Vec3_neq_y (u v : Vec3) : vy u <> vy v -> u <> v.
Proof. intros H E. apply H. rewrite E. reflexivity. Qed.

(** * The function, step by step *)

Section Steps.
Context {Status : Type}.
Variables (image_points : list Vec2f) (model_points : list Vec4f) (width height : Z).

Lemma estimate_sizes_differ :
  length image_points <> length model_points ->
  estimate_orthographic_camera Status image_points model_points width height
  = Abort AssertSizesEqual.
Proof.
  intros H. unfold estimate_orthographic_camera.
  apply Nat.eqb_neq in H. rewrite H. reflexivity.
Qed.

Lemma estimate_too_few :
  length image_points = length model_points ->
  (length image_points < 6)%nat ->
  estimate_orthographic_camera Status image_points model_points width height
  = Abort AssertAtLeastSix.
Proof.
  intros H1 H2. unfold estimate_orthographic_camera.
  apply Nat.eqb_eq in H1. rewrite H1.
  apply Nat.leb_gt in H2. rewrite H2. reflexivity.
Qed.

(** With the assertions passed, the function is one solver call followed by
    the packaging of the solved vector. *)
Lemma estimate_solves :
  length image_points = length model_points ->
  (6 <= length image_points)%nat ->
  exists k : Status * VectorXd -> program Status OrthographicRenderingParameters,
    estimate_orthographic_camera Status image_points model_points width height
    = LmMinimize (solver_functor image_points model_points width height)
        initial_parameters k
    /\ (forall info p0 p1 p2 p3 p4 p5 rest,
          k (info, p0 :: p1 :: p2 :: p3 :: p4 :: p5 :: rest)
          = Ret (packaged (aspect_of width height) p0 p1 p2 p3 p4 p5))
    /\ (forall info parameters,
          (length parameters < 6)%nat ->
          k (info, parameters) = Abort (IndexOutOfRange 5)).
Proof.
  intros H1 H2. unfold estimate_orthographic_camera.
  apply Nat.eqb_eq in H1. rewrite H1.
  apply Nat.leb_le in H2. rewrite H2.
  eexists. split; [reflexivity|]. split.
  - reflexivity.
  - intros info parameters Hlen. cbn [bind lm_minimize fst snd].
    unfold camera_frustum_of, coeff.
    assert (Hn : nth_error parameters 5 = None) by (apply nth_error_None; lia).
    rewrite Hn. reflexivity.
Qed.
End Steps.

(** Running the function against a solver whose reply has six coefficients. *)
Lemma run_estimate {Status : Type} (lm : solver Status)
    (image_points : list Vec2f) (model_points : list Vec4f) (width height : Z)
    (p0 p1 p2 p3 p4 p5 : F64.t) (rest : VectorXd) :
  length image_points = length model_points ->
  (6 <= length image_points)%nat ->
  solved_parameters lm image_points model_points width height
  = p0 :: p1 :: p2 :: p3 :: p4 :: p5 :: rest ->
  run lm (estimate_orthographic_camera Status image_points model_points width height)
  = Returned (packaged (aspect_of width height) p0 p1 p2 p3 p4 p5).
Proof.
  intros H1 H2 Hs.
  destruct (estimate_solves (Status := Status) image_points model_points width height H1 H2)
    as (k & -> & Hk & _).
  cbn [run]. unfold solved_parameters in Hs.
  destruct (lm _ initial_parameters) as [info parameters]. cbn [snd] in Hs. subst parameters.
  rewrite Hk. reflexivity.
Qed.

Lemma length_six_inv (v : VectorXd) :
  length v = 6%nat -> exists p0 p1 p2 p3 p4 p5, v = [p0; p1; p2; p3; p4; p5].
Proof.
  intros H.
  do 6 (destruct v as [|? v]; [discriminate|]).
  destruct v; [|discriminate].
  do 6 eexists. reflexivity.
Qed.

(** The aspect is a [float] value, whatever the dimensions. *)
Lemma aspect_of_valid (width height : Z) : F32.valid (aspect_of width height) = true.
Proof. apply SFdiv_valid. reflexivity. Qed.

(** The four bounds, with the factors [1.0f] and [-1.0f] carried out. *)
Lemma packaged_frustum (aspect : F32.t) (p0 p1 p2 p3 p4 p5 : F64.t) :
  F32.valid aspect = true -> F64.valid p5 = true ->
  frustum (packaged aspect p0 p1 p2 p3 p4 p5)
  = {| l := F32.of_double (F64.mul (F64.of_float (F32.opp aspect)) p5);
       r := F32.of_double (F64.mul (F64.of_float aspect) p5);
       b := F32.of_double (F64.opp p5);
       t := F32.of_double p5 |}.
Proof.
  intros Ha Hp. unfold packaged, frustum.
  assert (Hm1 : F32.mul (F32.opp F32.one) aspect = F32.opp aspect).
  { unfold F32.mul, F32.opp. rewrite SFmul_opp_l. f_equal. apply F32_mul_one_l, Ha. }
  assert (Hd1 : F64.mul (F64.of_float F32.one) p5 = p5) by apply F64_mul_one_l, Hp.
  assert (Hdm1 : F64.mul (F64.of_float (F32.opp F32.one)) p5 = F64.opp p5).
  { change (F64.of_float (F32.opp F32.one)) with (SFopp F64.one).
    unfold F64.mul, F64.opp. rewrite SFmul_opp_l. f_equal. apply F64_mul_one_l, Hp. }
  rewrite Hm1, Hd1, Hdm1, (F32_mul_one_l aspect Ha). reflexivity.
Qed.

(** The left bound is the opposite of the right one, the bottom bound of the
    top one. *)
Lemma packaged_symmetric (aspect : F32.t) (p0 p1 p2 p3 p4 p5 : F64.t) :
  l (frustum (packaged aspect p0 p1 p2 p3 p4 p5))
  = F32.opp (r (frustum (packaged aspect p0 p1 p2 p3 p4 p5)))
  /\ b (frustum (packaged aspect p0 p1 p2 p3 p4 p5))
     = F32.opp (t (frustum (packaged aspect p0 p1 p2 p3 p4 p5))).
Proof.
  unfold packaged, frustum, l, r, b, t, F32.opp, F32.of_double, F64.of_float, F64.mul, F32.mul.
  rewrite !SFmul_opp_l, !SFconvert_opp, !SFmul_opp_l, !SFconvert_opp. split; reflexivity.
Qed.

(** * The claims *)

(** C1: when the two point lists differ in length, or have fewer than six
    entries, the call aborts on the corresponding assertion and returns
    nothing; with equal lengths of six or more both assertions pass and the
    solver is called. *)
Theorem C1_precondition_asserts {Status : Type} (lm : solver Status)
    (image_points : list Vec2f) (model_points : list Vec4f) (width height : Z) :
  (length image_points <> length model_points ->
   run lm (estimate_orthographic_camera Status image_points model_points width height)
   = Aborted AssertSizesEqual)
  /\ (length image_points = length model_points ->
      (length image_points < 6)%nat ->
      run lm (estimate_orthographic_camera Status image_points model_points width height)
      = Aborted AssertAtLeastSix)
  /\ (length image_points = length model_points ->
      (6 <= length image_points)%nat ->
      solver_call (estimate_orthographic_camera Status image_points model_points width height)
      = Some (solver_functor image_points model_points width height, initial_parameters)).
Proof.
  repeat split.
  - intros H. rewrite estimate_sizes_differ by assumption. reflexivity.
  - intros H1 H2. rewrite estimate_too_few by assumption. reflexivity.
  - intros H1 H2.
    destruct (estimate_solves (Status := Status) image_points model_points width height H1 H2)
      as (k & -> & _). reflexivity.
Qed.

Lemma C1_precondition_asserts_witness :
  run idle_solver (estimate_orthographic_camera Z six_image_points five_model_points 640 480)
  = Aborted AssertSizesEqual
  /\ run idle_solver (estimate_orthographic_camera Z five_image_points five_model_points 640 480)
     = Aborted AssertAtLeastSix
  /\ solver_call (estimate_orthographic_camera Z six_image_points six_model_points 640 480)
     = Some (solver_functor six_image_points six_model_points 640 480, initial_parameters).
Proof.
  split; [|split].
  - apply (C1_precondition_asserts idle_solver six_image_points five_model_points 640 480).
    simpl. lia.
  - apply (C1_precondition_asserts idle_solver five_image_points five_model_points 640 480).
    + reflexivity.
    + simpl. lia.
  - apply (C1_precondition_asserts idle_solver six_image_points six_model_points 640 480).
    + reflexivity.
    + simpl. lia.
Defined.

(** C2: the frustum of the returned record is
    [{ (-aspect)*scale, aspect*scale, -scale, scale }], where [aspect] is the
    [float] quotient of the two dimensions (positive or not) and [scale] is the
    sixth solved coefficient; the products are taken in [double] and stored as
    [float]. *)
Theorem C2_frustum_bounds {Status : Type} (lm : solver Status)
    (image_points : list Vec2f) (model_points : list Vec4f) (width height : Z)
    (p0 p1 p2 p3 p4 scale : F64.t) :
  length image_points = length model_points ->
  (6 <= length image_points)%nat ->
  solved_parameters lm image_points model_points width height
  = [p0; p1; p2; p3; p4; scale] ->
  F64.valid scale = true ->
  exists result,
    run lm (estimate_orthographic_camera Status image_points model_points width height)
    = Returned result
    /\ frustum result
       = {| l := F32.of_double
                   (F64.mul (F64.of_float (F32.opp (F32.div (F32.of_int width) (F32.of_int height)))) scale);
            r := F32.of_double
                   (F64.mul (F64.of_float (F32.div (F32.of_int width) (F32.of_int height))) scale);
            b := F32.of_double (F64.opp scale);
            t := F32.of_double scale |}.
Proof.
  intros H1 H2 Hs Hv. eexists. split.
  - eapply run_estimate; eassumption.
  - apply packaged_frustum; [apply aspect_of_valid | assumption].
Qed.

Lemma C2_frustum_bounds_witness :
  exists result,
    run (scripted_solver 1 sample_solution)
      (estimate_orthographic_camera Z six_image_points six_model_points 640 480)
    = Returned result
    /\ frustum result
       = {| l := F32.of_double
                   (F64.mul (F64.of_float (F32.opp (F32.div (F32.of_int 640) (F32.of_int 480))))
                      (F64.of_int 100));
            r := F32.of_double
                   (F64.mul (F64.of_float (F32.div (F32.of_int 640) (F32.of_int 480)))
                      (F64.of_int 100));
            b := F32.of_double (F64.opp (F64.of_int 100));
            t := F32.of_double (F64.of_int 100) |}.
Proof.
  apply (C2_frustum_bounds (scripted_solver 1 sample_solution)
           six_image_points six_model_points 640 480
           (F64.div (F64.of_int 1) (F64.of_int 10)) (F64.div (F64.of_int (-1)) (F64.of_int 5))
           (F64.div (F64.of_int 1) (F64.of_int 100)) (F64.of_int 3) (F64.of_int (-2))).
  - reflexivity.
  - simpl. lia.
  - reflexivity.
  - reflexivity.
Defined.

(** C3: with the assertions passed, the call returns the record built from
    the vector the solver left, and nothing else: the five coefficients
    narrowed, and the frustum of the aspect and the sixth.  The status the
    solver reported has no part in it: a second solver that leaves the same
    vector, with any status of any type, gets the same record. *)
Theorem C3_status_never_inspected {Status1 Status2 : Type}
    (lm1 : solver Status1) (lm2 : solver Status2)
    (image_points : list Vec2f) (model_points : list Vec4f) (width height : Z)
    (p0 p1 p2 p3 p4 p5 : F64.t) :
  length image_points = length model_points ->
  (6 <= length image_points)%nat ->
  solved_parameters lm1 image_points model_points width height
  = [p0; p1; p2; p3; p4; p5] ->
  solved_parameters lm2 image_points model_points width height
  = [p0; p1; p2; p3; p4; p5] ->
  run lm1 (estimate_orthographic_camera Status1 image_points model_points width height)
  = Returned (packaged (aspect_of width height) p0 p1 p2 p3 p4 p5)
  /\ run lm2 (estimate_orthographic_camera Status2 image_points model_points width height)
     = Returned (packaged (aspect_of width height) p0 p1 p2 p3 p4 p5)
  /\ packaged (aspect_of width height) p0 p1 p2 p3 p4 p5
     = {| r_x := F32.of_double p0; r_y := F32.of_double p1;
          r_z := F32.of_double p2; t_x := F32.of_double p3;
          t_y := F32.of_double p4;
          frustum :=
            {| l := F32.of_double
                      (F64.mul (F64.of_float (F32.mul (F32.opp F32.one)
                                                (F32.div (F32.of_int width) (F32.of_int height))))
                         p5);
               r := F32.of_double
                      (F64.mul (F64.of_float (F32.mul F32.one
                                                (F32.div (F32.of_int width) (F32.of_int height))))
                         p5);
               b := F32.of_double (F64.mul (F64.of_float (F32.opp F32.one)) p5);
               t := F32.of_double (F64.mul (F64.of_float F32.one) p5) |} |}.
Proof.
  intros H1 H2 Hs1 Hs2.
  split; [eapply run_estimate; eassumption|].
  split; [eapply run_estimate; eassumption|].
  reflexivity.
Qed.

Lemma C3_status_never_inspected_witness :
  run (scripted_solver 1 sample_solution)
    (estimate_orthographic_camera Z six_image_points six_model_points 640 480)
  = Returned (packaged (aspect_of 640 480)
                (F64.div (F64.of_int 1) (F64.of_int 10))
                (F64.div (F64.of_int (-1)) (F64.of_int 5))
                (F64.div (F64.of_int 1) (F64.of_int 100))
                (F64.of_int 3) (F64.of_int (-2)) (F64.of_int 100))
  /\ run (fun _ _ => (false, sample_solution))
       (estimate_orthographic_camera bool six_image_points six_model_points 640 480)
     = Returned (packaged (aspect_of 640 480)
                   (F64.div (F64.of_int 1) (F64.of_int 10))
                   (F64.div (F64.of_int (-1)) (F64.of_int 5))
                   (F64.div (F64.of_int 1) (F64.of_int 100))
                   (F64.of_int 3) (F64.of_int (-2)) (F64.of_int 100)).
Proof.
  destruct (C3_status_never_inspected (scripted_solver 1 sample_solution)
              (fun _ _ => (false, sample_solution))
              six_image_points six_model_points 640 480
              (F64.div (F64.of_int 1) (F64.of_int 10))
              (F64.div (F64.of_int (-1)) (F64.of_int 5))
              (F64.div (F64.of_int 1) (F64.of_int 100))
              (F64.of_int 3) (F64.of_int (-2)) (F64.of_int 100))
    as (Hrun1 & Hrun2 & _).
  - reflexivity.
  - simpl. lia.
  - reflexivity.
  - reflexivity.
  - split; [exact Hrun1 | exact Hrun2].
Defined.

(** C4: the vector handed to the solver has six coefficients, five zeros and
    then 110, whatever the points and the dimensions. *)
Theorem C4_initial_parameters {Status : Type}
    (image_points : list Vec2f) (model_points : list Vec4f) (width height : Z) :
  length image_points = length model_points ->
  (6 <= length image_points)%nat ->
  exists functor,
    solver_call (estimate_orthographic_camera Status image_points model_points width height)
    = Some (functor,
            [F64.zero; F64.zero; F64.zero; F64.zero; F64.zero; F64.of_int 110]).
Proof.
  intros H1 H2.
  destruct (estimate_solves (Status := Status) image_points model_points width height H1 H2)
    as (k & -> & _).
  eexists. reflexivity.
Qed.

Lemma C4_initial_parameters_witness :
  exists functor,
    solver_call (estimate_orthographic_camera Z six_image_points six_model_points 1920 1080)
    = Some (functor,
            [F64.zero; F64.zero; F64.zero; F64.zero; F64.zero; F64.of_int 110]).
Proof.
  apply (C4_initial_parameters (Status := Z) six_image_points six_model_points 1920 1080).
  - reflexivity.
  - simpl. lia.
Defined.

(** C6: the record is read back from the solved vector in the order
    [pitch, yaw, roll, t_x, t_y, frustum_scale]: [r_x], [r_y], [r_z], [t_x]
    and [t_y] are coefficients 0 to 4, and the frustum is set by coefficient 5
    (and the aspect) alone. *)
Theorem C6_fields_in_order {Status : Type} (lm : solver Status)
    (image_points : list Vec2f) (model_points : list Vec4f) (width height : Z)
    (p0 p1 p2 p3 p4 p5 : F64.t) :
  length image_points = length model_points ->
  (6 <= length image_points)%nat ->
  solved_parameters lm image_points model_points width height
  = [p0; p1; p2; p3; p4; p5] ->
  exists result,
    run lm (estimate_orthographic_camera Status image_points model_points width height)
    = Returned result
    /\ r_x result = F32.of_double p0
    /\ r_y result = F32.of_double p1
    /\ r_z result = F32.of_double p2
    /\ t_x result = F32.of_double p3
    /\ t_y result = F32.of_double p4
    /\ forall q0 q1 q2 q3 q4,
         frustum result = frustum (packaged (aspect_of width height) q0 q1 q2 q3 q4 p5).
Proof.
  intros H1 H2 Hs. eexists. split.
  - eapply run_estimate; eassumption.
  - repeat split.
Qed.

Lemma C6_fields_in_order_witness :
  exists result,
    run (scripted_solver 1 sample_solution)
      (estimate_orthographic_camera Z six_image_points six_model_points 640 480)
    = Returned result
    /\ r_x result = F32.of_double (F64.div (F64.of_int 1) (F64.of_int 10))
    /\ r_y result = F32.of_double (F64.div (F64.of_int (-1)) (F64.of_int 5))
    /\ r_z result = F32.of_double (F64.div (F64.of_int 1) (F64.of_int 100))
    /\ t_x result = F32.of_double (F64.of_int 3)
    /\ t_y result = F32.of_double (F64.of_int (-2))
    /\ forall q0 q1 q2 q3 q4,
         frustum result
         = frustum (packaged (aspect_of 640 480) q0 q1 q2 q3 q4 (F64.of_int 100)).
Proof.
  apply (C6_fields_in_order (scripted_solver 1 sample_solution)
           six_image_points six_model_points 640 480).
  - reflexivity.
  - simpl. lia.
  - reflexivity.
Defined.

(** C8: the functor handed to the solver is the cost functor of the call
    wrapped in [NumericalDiff] with the step parameter 0.0001, the double
    nearest to 1/10000, which is not the default of the wrapper. *)
Theorem C8_numerical_diff_step {Status : Type}
    (image_points : list Vec2f) (model_points : list Vec4f) (width height : Z) :
  length image_points = length model_points ->
  (6 <= length image_points)%nat ->
  exists functor x,
    solver_call (estimate_orthographic_camera Status image_points model_points width height)
    = Some (functor, x)
    /\ nd_functor functor
       = {| opp_image_points := image_points; opp_model_points := model_points;
            opp_width := width; opp_height := height |}
    /\ nd_epsfcn functor = F64.div (F64.of_int 1) (F64.of_int 10000)
    /\ nd_epsfcn functor <> NumericalDiff_default_epsfcn.
Proof.
  intros H1 H2.
  destruct (estimate_solves (Status := Status) image_points model_points width height H1 H2)
    as (k & -> & _).
  do 2 eexists. split; [reflexivity|]. repeat split. discriminate.
Qed.

Lemma C8_numerical_diff_step_witness :
  exists functor x,
    solver_call (estimate_orthographic_camera Z six_image_points six_model_points 640 480)
    = Some (functor, x)
    /\ nd_functor functor
       = {| opp_image_points := six_image_points; opp_model_points := six_model_points;
            opp_width := 640; opp_height := 480 |}
    /\ nd_epsfcn functor = F64.div (F64.of_int 1) (F64.of_int 10000)
    /\ nd_epsfcn functor <> NumericalDiff_default_epsfcn.
Proof.
  apply (C8_numerical_diff_step (Status := Z) six_image_points six_model_points 640 480).
  - reflexivity.
  - simpl. lia.
Defined.

(** C9, as stated, fails in two places.  For a 3 by 1 image and the solved
    scale [1 + 2^-24 + 2^-40], the aspect is 3, the top bound is [1 + 2^-23]
    and the right bound is [3 + 2^-22]: the exact product of aspect and top
    is another number, and rounded it is [3 + 2^-21], whether it is taken in
    [float] or in [double].  For the negative solved scale [-2^-200] the
    bounds are zeros, and neither [left > right] nor [bottom > top] holds. *)
Lemma C9_counterexample :
  (exists result,
     run (scripted_solver 1 (solution_with_scale scale_just_above_one))
       (estimate_orthographic_camera Z six_image_points six_model_points 3 1)
     = Returned result
     /\ aspect_of 3 1 = S754_finite false 12582912 (-22)
     /\ t (frustum result) = S754_finite false 8388609 (-23)
     /\ r (frustum result) = S754_finite false 12582913 (-22)
     /\ 12582912 * 8388609 <> 12582913 * 2 ^ 23
     /\ F32.mul (aspect_of 3 1) (t (frustum result)) = S754_finite false 12582914 (-22)
     /\ F32.of_double (F64.mul (F64.of_float (aspect_of 3 1)) (F64.of_float (t (frustum result))))
        = S754_finite false 12582914 (-22)
     /\ r (frustum result) <> F32.mul (aspect_of 3 1) (t (frustum result)))
  /\ (exists result,
        run (scripted_solver 1 (solution_with_scale scale_tiny_negative))
          (estimate_orthographic_camera Z six_image_points six_model_points 3 1)
        = Returned result
        /\ F64.ltb scale_tiny_negative F64.zero = true
        /\ F32.ltb (r (frustum result)) (l (frustum result)) = false
        /\ F32.ltb (t (frustum result)) (b (frustum result)) = false).
Proof.
  split.
  - exists (packaged (aspect_of 3 1) F64.zero F64.zero F64.zero F64.zero F64.zero
              scale_just_above_one).
    split; [reflexivity|].
    repeat split; try (vm_compute; reflexivity); vm_compute; discriminate.
  - exists (packaged (aspect_of 3 1) F64.zero F64.zero F64.zero F64.zero F64.zero
              scale_tiny_negative).
    split; [reflexivity|].
    repeat split; vm_compute; reflexivity.
Qed.

(** C9, amended: the left bound is the opposite of the right one and the
    bottom bound the opposite of the top one; the right bound is the product
    of the aspect and the solved scale, taken in [double] and rounded once to
    [float], and the top bound is the solved scale rounded to [float];
    whenever the top bound is negative the bottom bound is above it, and
    whenever the right bound is negative the left bound is above it. *)
Theorem C9_frustum_symmetry {Status : Type} (lm : solver Status)
    (image_points : list Vec2f) (model_points : list Vec4f) (width height : Z)
    (p0 p1 p2 p3 p4 scale : F64.t) :
  length image_points = length model_points ->
  (6 <= length image_points)%nat ->
  solved_parameters lm image_points model_points width height
  = [p0; p1; p2; p3; p4; scale] ->
  F64.valid scale = true ->
  exists result,
    run lm (estimate_orthographic_camera Status image_points model_points width height)
    = Returned result
    /\ l (frustum result) = F32.opp (r (frustum result))
    /\ b (frustum result) = F32.opp (t (frustum result))
    /\ r (frustum result)
       = F32.of_double (F64.mul (F64.of_float (aspect_of width height)) scale)
    /\ t (frustum result) = F32.of_double scale
    /\ (F32.ltb (t (frustum result)) F32.zero = true ->
        F32.ltb (t (frustum result)) (b (frustum result)) = true)
    /\ (F32.ltb (r (frustum result)) F32.zero = true ->
        F32.ltb (r (frustum result)) (l (frustum result)) = true).
Proof.
  intros H1 H2 Hs Hv. eexists. split; [eapply run_estimate; eassumption|].
  destruct (packaged_symmetric (aspect_of width height) p0 p1 p2 p3 p4 scale) as [Hl Hb].
  pose proof (packaged_frustum (aspect_of width height) p0 p1 p2 p3 p4 scale
                (aspect_of_valid width height) Hv) as Hf.
  split; [exact Hl|]. split; [exact Hb|].
  split; [rewrite Hf; reflexivity|]. split; [rewrite Hf; reflexivity|].
  split.
  - rewrite Hb. apply SFltb_neg_opp.
  - rewrite Hl. apply SFltb_neg_opp.
Qed.

Lemma C9_frustum_symmetry_witness :
  exists result,
    run (scripted_solver 1 (solution_with_scale (F64.of_int (-100))))
      (estimate_orthographic_camera Z six_image_points six_model_points 640 480)
    = Returned result
    /\ l (frustum result) = F32.opp (r (frustum result))
    /\ b (frustum result) = F32.opp (t (frustum result))
    /\ r (frustum result)
       = F32.of_double (F64.mul (F64.of_float (aspect_of 640 480)) (F64.of_int (-100)))
    /\ t (frustum result) = F32.of_double (F64.of_int (-100))
    /\ (F32.ltb (t (frustum result)) F32.zero = true ->
        F32.ltb (t (frustum result)) (b (frustum result)) = true)
    /\ (F32.ltb (r (frustum result)) F32.zero = true ->
        F32.ltb (r (frustum result)) (l (frustum result)) = true).
Proof.
  apply (C9_frustum_symmetry (scripted_solver 1 (solution_with_scale (F64.of_int (-100))))
           six_image_points six_model_points 640 480
           F64.zero F64.zero F64.zero F64.zero F64.zero).
  - reflexivity.
  - simpl. lia.
  - reflexivity.
  - reflexivity.
Defined.

(** C10: the vector handed to the solver holds [double] values, and each
    scalar of the returned record is the [float] nearest to a [double]: the
    five solved coefficients, the solved scale and its opposite, and the two
    products of the aspect with the solved scale taken in [double]. *)
Theorem C10_fields_narrowed {Status : Type} (lm : solver Status)
    (image_points : list Vec2f) (model_points : list Vec4f) (width height : Z)
    (p0 p1 p2 p3 p4 p5 : F64.t) :
  length image_points = length model_points ->
  (6 <= length image_points)%nat ->
  solved_parameters lm image_points model_points width height
  = [p0; p1; p2; p3; p4; p5] ->
  F64.valid p5 = true ->
  Forall (fun d => F64.valid d = true) initial_parameters
  /\ exists result,
       run lm (estimate_orthographic_camera Status image_points model_points width height)
       = Returned result
       /\ result
          = {| r_x := F32.of_double p0; r_y := F32.of_double p1;
               r_z := F32.of_double p2; t_x := F32.of_double p3;
               t_y := F32.of_double p4;
               frustum :=
                 {| l := F32.of_double
                           (F64.mul (F64.of_float (F32.opp (aspect_of width height))) p5);
                    r := F32.of_double
                           (F64.mul (F64.of_float (aspect_of width height)) p5);
                    b := F32.of_double (F64.opp p5);
                    t := F32.of_double p5 |} |}
       /\ Forall (fun x => F32.valid x = true)
            [r_x result; r_y result; r_z result; t_x result; t_y result;
             l (frustum result); r (frustum result);
             b (frustum result); t (frustum result)].
Proof.
  intros H1 H2 Hs Hv. split.
  - repeat constructor.
  - eexists. split; [eapply run_estimate; eassumption|].
    pose proof (packaged_frustum (aspect_of width height) p0 p1 p2 p3 p4 p5
                  (aspect_of_valid width height) Hv) as Hf.
    split.
    + unfold packaged in *. cbn [frustum] in Hf. rewrite Hf. reflexivity.
    + unfold packaged in *. cbn [frustum] in Hf. rewrite Hf.
      cbn [r_x r_y r_z t_x t_y frustum l r b t].
      repeat constructor; apply (SFconvert_valid 24 128); reflexivity.
Qed.

Lemma C10_fields_narrowed_witness :
  Forall (fun d => F64.valid d = true) initial_parameters
  /\ exists result,
       run (scripted_solver 1 sample_solution)
         (estimate_orthographic_camera Z six_image_points six_model_points 640 480)
       = Returned result
       /\ result
          = {| r_x := F32.of_double (F64.div (F64.of_int 1) (F64.of_int 10));
               r_y := F32.of_double (F64.div (F64.of_int (-1)) (F64.of_int 5));
               r_z := F32.of_double (F64.div (F64.of_int 1) (F64.of_int 100));
               t_x := F32.of_double (F64.of_int 3);
               t_y := F32.of_double (F64.of_int (-2));
               frustum :=
                 {| l := F32.of_double
                           (F64.mul (F64.of_float (F32.opp (aspect_of 640 480)))
                              (F64.of_int 100));
                    r := F32.of_double
                           (F64.mul (F64.of_float (aspect_of 640 480)) (F64.of_int 100));
                    b := F32.of_double (F64.opp (F64.of_int 100));
                    t := F32.of_double (F64.of_int 100) |} |}
       /\ Forall (fun x => F32.valid x = true)
            [r_x result; r_y result; r_z result; t_x result; t_y result;
             l (frustum result); r (frustum result);
             b (frustum result); t (frustum result)].
Proof.
  apply (C10_fields_narrowed (scripted_solver 1 sample_solution)
           six_image_points six_model_points 640 480).
  - reflexivity.
  - simpl. lia.
  - reflexivity.
  - reflexivity.
Defined.

(** C5: the rotation of the forward projection is the matrix product
    R * P * Y applied to the vertex, R the roll about z, P the pitch about x
    and Y the yaw about y, angles in radians: a quarter turn of yaw alone
    takes the point (1, 0, 0) to (0, 0, -1), and yaw is applied before pitch,
    which shows on that point when both are a quarter turn. *)
Theorem C5_rotation_order (pitch yaw roll : R) (vertex : Vec3) :
  rotate_model_point pitch yaw roll vertex
  = mat_vec (mat_mul (mat_mul (rot_z roll) (rot_x pitch)) (rot_y yaw)) vertex
  /\ rotate_model_point 0 (PI / 2) 0 {| vx := 1; vy := 0; vz := 0 |}
     = {| vx := 0; vy := 0; vz := -1 |}
  /\ rotate_model_point (PI / 2) (PI / 2) 0 {| vx := 1; vy := 0; vz := 0 |}
     = {| vx := 0; vy := 1; vz := 0 |}
  /\ rotate_model_point (PI / 2) (PI / 2) 0 {| vx := 1; vy := 0; vz := 0 |}
     <> mat_vec (rot_y (PI / 2)) (mat_vec (rot_x (PI / 2)) {| vx := 1; vy := 0; vz := 0 |}).
Proof.
  assert (Hyaw_pitch :
    rotate_model_point (PI / 2) (PI / 2) 0 {| vx := 1; vy := 0; vz := 0 |}
    = {| vx := 0; vy := 1; vz := 0 |}).
  { unfold rotate_model_point, mat_vec, dot; cbn.
    rewrite cos_PI2, sin_PI2, cos_0, sin_0. f_equal; ring. }
  assert (Hpitch_yaw :
    mat_vec (rot_y (PI / 2)) (mat_vec (rot_x (PI / 2)) {| vx := 1; vy := 0; vz := 0 |})
    = {| vx := 0; vy := 0; vz := -1 |}).
  { unfold mat_vec, dot; cbn. rewrite cos_PI2, sin_PI2. f_equal; ring. }
  split; [|split; [|split]].
  - unfold rotate_model_point. rewrite !mat_vec_mul. reflexivity.
  - unfold rotate_model_point, mat_vec, dot; cbn.
    rewrite cos_PI2, sin_PI2, cos_0, sin_0. f_equal; ring.
  - exact Hyaw_pitch.
  - rewrite Hyaw_pitch, Hpitch_yaw. apply Vec3_neq_y. cbn. apply R1_neq_R0.
Qed.

(** C7, as stated, fails for large dimensions: 1 by 3 and 16777217 by
    50331651 have the same ratio, but the larger pair is rounded when it is
    converted to [float], the aspects differ in the last place, and with the
    same scale 110 so do the bounds. *)
Lemma C7_counterexample :
  1 * 50331651 = 16777217 * 3
  /\ exists result1 result2,
       run idle_solver (estimate_orthographic_camera Z six_image_points six_model_points 1 3)
       = Returned result1
       /\ run idle_solver
            (estimate_orthographic_camera Z six_image_points six_model_points 16777217 50331651)
          = Returned result2
       /\ r (frustum result1) = S754_finite false 9611947 (-18)
       /\ r (frustum result2) = S754_finite false 9611946 (-18)
       /\ frustum result1 <> frustum result2.
Proof.
  split; [reflexivity|].
  exists (packaged (aspect_of 1 3) F64.zero F64.zero F64.zero F64.zero F64.zero F64.lit_110).
  exists (packaged (aspect_of 16777217 50331651)
            F64.zero F64.zero F64.zero F64.zero F64.zero F64.lit_110).
  split; [reflexivity|]. split; [reflexivity|].
  split; [vm_compute; reflexivity|]. split; [vm_compute; reflexivity|].
  vm_compute. discriminate.
Qed.

(** C7, amended: for a fixed solved scale, two pairs of positive dimensions
    below 2^24 (which convert to [float] exactly) with the same ratio give the
    same frustum bounds. *)
Theorem C7_frustum_same_ratio {Status : Type} (lm : solver Status)
    (image_points : list Vec2f) (model_points : list Vec4f)
    (width1 height1 width2 height2 : Z)
    (p0 p1 p2 p3 p4 q0 q1 q2 q3 q4 scale : F64.t) :
  length image_points = length model_points ->
  (6 <= length image_points)%nat ->
  0 < width1 < 2 ^ 24 -> 0 < height1 < 2 ^ 24 ->
  0 < width2 < 2 ^ 24 -> 0 < height2 < 2 ^ 24 ->
  width1 * height2 = width2 * height1 ->
  solved_parameters lm image_points model_points width1 height1
  = [p0; p1; p2; p3; p4; scale] ->
  solved_parameters lm image_points model_points width2 height2
  = [q0; q1; q2; q3; q4; scale] ->
  exists result1 result2,
    run lm (estimate_orthographic_camera Status image_points model_points width1 height1)
    = Returned result1
    /\ run lm (estimate_orthographic_camera Status image_points model_points width2 height2)
       = Returned result2
    /\ frustum result1 = frustum result2.
Proof.
  intros H1 H2 Hw1 Hh1 Hw2 Hh2 Hratio Hs1 Hs2.
  do 2 eexists. split; [eapply run_estimate; eassumption|].
  split; [eapply run_estimate; eassumption|].
  rewrite (aspect_of_ratio width1 height1 width2 height2) by assumption.
  reflexivity.
Qed.

Lemma C7_frustum_same_ratio_witness :
  exists result1 result2,
    run idle_solver (estimate_orthographic_camera Z six_image_points six_model_points 640 480)
    = Returned result1
    /\ run idle_solver
         (estimate_orthographic_camera Z six_image_points six_model_points 1920 1440)
       = Returned result2
    /\ frustum result1 = frustum result2.
Proof.
  apply (C7_frustum_same_ratio idle_solver six_image_points six_model_points
           640 480 1920 1440
           F64.zero F64.zero F64.zero F64.zero F64.zero
           F64.zero F64.zero F64.zero F64.zero F64.zero F64.lit_110).
  - reflexivity.
  - simpl. lia.
  - lia.
  - lia.
  - lia.
  - lia.
  - reflexivity.
  - reflexivity.
  - reflexivity.
Defined.

(** * Further facts about the arithmetic

    Finite results, signs, and opposite operands. *)

Section FormatFinite.
Variables prec emax : Z.
Hypothesis prec_pos : 0 < prec.

Lemma shr_fexp_exponent (m e : Z) (lc : location) :
  e <= fexp prec emax (Zdigits2 m + e) ->
  snd (shr_fexp prec emax m e lc) = fexp prec emax (Zdigits2 m + e).
Proof.
  intros He. unfold shr_fexp, shr.
  destruct (fexp prec emax (Zdigits2 m + e) - e) as [|n|n] eqn:Hn; cbn [snd]; lia.
Qed.

(** A mantissa whose exponent is above the least one of the format has as
    many digits as the format keeps. *)
Lemma canonical_digits (m e : Z) :
  0 <= m -> e = fexp prec emax (Zdigits2 m + e) -> 3 - emax - prec < e ->
  0 < m /\ Zdigits2 m = prec.
Proof.
  intros Hm He Hmin. rewrite fexp_eq in He.
  destruct (Z.eq_dec m 0) as [->|Hne]; [change (Zdigits2 0) with 0 in He; lia|].
  split; lia.
Qed.

(** Away from the ends of the exponent range, rounding gives a finite value
    with a full mantissa, at the exponent of the format or one above. *)
Lemma binary_round_aux_finite (s : bool) (m e : Z) (lc : location) :
  0 <= m -> e <= fexp prec emax (Zdigits2 m + e) ->
  3 - emax - prec < fexp prec emax (Zdigits2 m + e) ->
  fexp prec emax (Zdigits2 m + e) + 1 <= emax - prec ->
  exists m' e',
    binary_round_aux prec emax s m e lc = S754_finite s m' e'
    /\ Zdigits2 (Z.pos m') = prec
    /\ fexp prec emax (Zdigits2 m + e) <= e' <= fexp prec emax (Zdigits2 m + e) + 1.
Proof.
  intros Hm He Hlo Hhi. unfold binary_round_aux.
  pose proof (shr_fexp_canonical prec emax prec_pos m e lc Hm He) as [Hm1 He1].
  pose proof (shr_fexp_exponent m e lc He) as Hx1.
  destruct (shr_fexp prec emax m e lc) as [mrs1 e1]. cbn [fst snd] in Hm1, He1, Hx1.
  destruct (canonical_digits (shr_m mrs1) e1 Hm1 He1 ltac:(lia)) as [Hp1 Hd1].
  pose proof (round_nearest_even_range (shr_m mrs1) (loc_of_shr_record mrs1)) as Hr.
  set (m2 := round_nearest_even (shr_m mrs1) (loc_of_shr_record mrs1)) in *.
  clearbody m2.
  assert (Hd2 : prec <= Zdigits2 m2 <= prec + 1).
  { split.
    - rewrite <- Hd1. apply Zdigits2_mono. lia.
    - apply Zdigits2_le; try lia.
      pose proof (Zdigits2_pow_bounds (shr_m mrs1) Hp1) as [_ Hu]. rewrite Hd1 in Hu.
      rewrite Z.pow_add_r by lia. change (2 ^ 1) with 2. lia. }
  assert (He2 : e1 <= fexp prec emax (Zdigits2 m2 + e1)) by (rewrite fexp_eq; lia).
  pose proof (shr_fexp_canonical prec emax prec_pos m2 e1 loc_Exact ltac:(lia) He2) as [Hm3 He3].
  pose proof (shr_fexp_exponent m2 e1 loc_Exact He2) as Hx3.
  destruct (shr_fexp prec emax m2 e1 loc_Exact) as [mrs3 e3]. cbn [fst snd] in Hm3, He3, Hx3.
  assert (Hb3 : e1 <= e3 <= e1 + 1) by (rewrite Hx3, fexp_eq; lia).
  destruct (canonical_digits (shr_m mrs3) e3 Hm3 He3 ltac:(lia)) as [Hp3 Hd3].
  destruct (shr_m mrs3) as [|m3|m3] eqn:Hm3e; try lia.
  assert (Hle : (e3 <=? emax - prec) = true) by (apply Z.leb_le; lia).
  rewrite Hle. exists m3, e3. split; [reflexivity|]. split; [assumption|lia].
Qed.

Lemma binary_round_finite (s : bool) (p : positive) (e : Z) :
  3 - emax - prec < fexp prec emax (Z.pos (digits2_pos p) + e) ->
  fexp prec emax (Z.pos (digits2_pos p) + e) + 1 <= emax - prec ->
  exists m' e',
    binary_round prec emax s p e = S754_finite s m' e'
    /\ Zdigits2 (Z.pos m') = prec
    /\ fexp prec emax (Z.pos (digits2_pos p) + e) <= e'
       <= fexp prec emax (Z.pos (digits2_pos p) + e) + 1.
Proof.
  intros Hlo Hhi. unfold binary_round, shl_align.
  destruct (fexp prec emax (Z.pos (digits2_pos p) + e) - e) as [|d|d] eqn:Hd.
  - apply binary_round_aux_finite; simpl Zdigits2; lia.
  - apply binary_round_aux_finite; simpl Zdigits2; lia.
  - assert (Hs : Zdigits2 (Z.pos (Pos.iter xO p d))
                 + fexp prec emax (Z.pos (digits2_pos p) + e)
                 = Z.pos (digits2_pos p) + e).
    { simpl Zdigits2. rewrite digits2_pos_iter_xO. lia. }
    destruct (binary_round_aux_finite s (Z.pos (Pos.iter xO p d))
                (fexp prec emax (Z.pos (digits2_pos p) + e)) loc_Exact)
      as (m' & e' & H1 & H2 & H3); try (rewrite Hs; lia); try lia.
    rewrite Hs in H3. exists m', e'. auto.
Qed.
End FormatFinite.

(** A non-zero [int] converts to a finite [float] of its sign, with a full
    mantissa. *)
Lemma F32_of_int_finite (n : Z) :
  n <> 0 -> - 2 ^ 31 <= n < 2 ^ 31 ->
  exists m e,
    F32.of_int n = S754_finite (n <? 0) m e
    /\ Zdigits2 (Z.pos m) = 24 /\ -23 <= e <= 9.
Proof.
  intros Hn Hr.
  assert (Hd : forall p, Z.pos p <= 2 ^ 31 ->
            1 <= Z.pos (digits2_pos p) + 0 <= 32).
  { intros p Hp. pose proof (Zdigits2_le (Z.pos p) 32 ltac:(lia) ltac:(lia) ltac:(lia)).
    simpl in H. lia. }
  destruct n as [|p|p]; try lia; unfold F32.of_int, binary_normalize.
  - destruct (binary_round_finite F32.prec F32.emax ltac:(reflexivity) false p 0)
      as (m & e & H1 & H2 & H3);
      try (rewrite fexp_eq; unfold F32.prec, F32.emax; specialize (Hd p); lia).
    exists m, e. split; [exact H1|]. split; [exact H2|].
    rewrite fexp_eq in H3. unfold F32.prec, F32.emax in H3. specialize (Hd p). lia.
  - destruct (binary_round_finite F32.prec F32.emax ltac:(reflexivity) true p 0)
      as (m & e & H1 & H2 & H3);
      try (rewrite fexp_eq; unfold F32.prec, F32.emax; specialize (Hd p); lia).
    exists m, e. split; [exact H1|]. split; [exact H2|].
    rewrite fexp_eq in H3. unfold F32.prec, F32.emax in H3. specialize (Hd p). lia.
Qed.

(** The aspect when the height is zero: infinite, of the sign of the width. *)
Lemma aspect_of_height_zero (width : Z) :
  width <> 0 -> - 2 ^ 31 <= width < 2 ^ 31 ->
  aspect_of width 0 = S754_infinity (width <? 0).
Proof.
  intros Hn Hr. unfold aspect_of, F32.div.
  destruct (F32_of_int_finite width Hn Hr) as (m & e & -> & _).
  simpl. rewrite xorb_false_r. reflexivity.
Qed.

(** A finite value divided by itself is one. *)
Lemma F32_div_same (s : bool) (m : positive) (e : Z) :
  F32.div (S754_finite s m e) (S754_finite s m e) = F32.one.
Proof.
  unfold F32.div.
  destruct (SFdiv_finite F32.prec F32.emax ltac:(reflexivity) s s m m e e)
    as (q & e' & Hq & He & Hin & _ & ->).
  replace (Zdigits2 (Z.pos m) + e - (Zdigits2 (Z.pos m) + e)) with 0 in He by lia.
  replace (e - e) with 0 in * by lia.
  change (Z.min (fexp F32.prec F32.emax 0) 0) with (-24) in He. subst e'.
  change (0 - -24) with 24 in *. change (2 ^ 24) with 16777216 in *.
  assert (Hq24 : q = 16777216) by nia. subst q.
  rewrite xorb_nilpotent.
  change (fexp F32.prec F32.emax (Zdigits2 16777216 + -24)) with (-23).
  change (-23 - -24) with 1. change (2 ^ 1) with 2.
  rewrite (rne_ratio (Z.pos m * 16777216) (Z.pos m * 2) 16777216 2) by lia.
  reflexivity.
Qed.

Lemma aspect_of_square (n : Z) :
  n <> 0 -> - 2 ^ 31 <= n < 2 ^ 31 -> aspect_of n n = F32.one.
Proof.
  intros Hn Hr. unfold aspect_of.
  destruct (F32_of_int_finite n Hn Hr) as (m & e & -> & _).
  apply F32_div_same.
Qed.

(** The aspect of positive dimensions is a positive finite number. *)
Lemma aspect_of_positive (width height : Z) :
  0 < width < 2 ^ 31 -> 0 < height < 2 ^ 31 ->
  exists m e, aspect_of width height = S754_finite false m e.
Proof.
  intros Hw Hh. unfold aspect_of, F32.div.
  destruct (F32_of_int_finite width ltac:(lia) ltac:(lia)) as (mw & ew & -> & Hdw & Hew).
  destruct (F32_of_int_finite height ltac:(lia) ltac:(lia)) as (mh & eh & -> & Hdh & Heh).
  replace (width <? 0) with false by (symmetry; apply Z.ltb_ge; lia).
  replace (height <? 0) with false by (symmetry; apply Z.ltb_ge; lia).
  unfold SFdiv.
  destruct (SFdiv_core_binary_spec F32.prec F32.emax ltac:(reflexivity) mw mh ew eh)
    as (q & e & lc & -> & He & Hq & Hin & Hle).
  rewrite Hdw, Hdh, fexp_eq in He. unfold F32.prec, F32.emax in He.
  assert (Hee : e = ew - eh - 24) by lia. clear He.
  replace (ew - eh - e) with 24 in Hin by lia.
  pose proof (Zdigits2_pow_bounds (Z.pos mw) ltac:(lia)) as Hbw. rewrite Hdw in Hbw.
  pose proof (Zdigits2_pow_bounds (Z.pos mh) ltac:(lia)) as Hbh. rewrite Hdh in Hbh.
  change (2 ^ (24 - 1)) with 8388608 in *. change (2 ^ 24) with 16777216 in *.
  destruct Hin as (rem & HA & Hrem & _).
  assert (Hq25 : q < 2 ^ 25) by (change (2 ^ 25) with 33554432; nia).
  pose proof (Zdigits2_le q 25 Hq25 ltac:(lia) Hq) as Hdq.
  pose proof (Zdigits2_nonneg q) as Hdq0.
  rewrite fexp_eq in Hle. unfold F32.prec, F32.emax in Hle.
  destruct (binary_round_aux_finite F32.prec F32.emax ltac:(reflexivity)
              (xorb false false) q e lc) as (m & e' & H1 & _); try assumption;
    try (rewrite fexp_eq; unfold F32.prec, F32.emax; lia).
  exists m, e'. exact H1.
Qed.

Section SignsOfResults.
Variables prec emax : Z.
Hypothesis prec_pos : 0 < prec.

Lemma shr_fexp_nonneg (m e : Z) (lc : location) :
  0 <= m -> 0 <= shr_m (fst (shr_fexp prec emax m e lc)).
Proof.
  intros Hm. unfold shr_fexp, shr.
  destruct (fexp prec emax (Zdigits2 m + e) - e) as [|n|n]; cbn [fst];
    try (rewrite shr_record_of_loc_m; assumption).
  rewrite iter_shr_1_m, shr_record_of_loc_m by (rewrite shr_record_of_loc_m; assumption).
  apply Z.div_pos; [assumption|apply Z.pow_pos_nonneg; lia].
Qed.

Lemma binary_round_aux_sign (s : bool) (m e : Z) (lc : location) :
  0 <= m -> SFsign (binary_round_aux prec emax s m e lc) = Some s.
Proof.
  intros Hm. unfold binary_round_aux.
  pose proof (shr_fexp_nonneg m e lc Hm) as H1.
  destruct (shr_fexp prec emax m e lc) as [mrs1 e1]. cbn [fst] in H1.
  pose proof (round_nearest_even_range (shr_m mrs1) (loc_of_shr_record mrs1)) as Hr.
  pose proof (shr_fexp_nonneg (round_nearest_even (shr_m mrs1) (loc_of_shr_record mrs1))
                e1 loc_Exact ltac:(lia)) as H3.
  destruct (shr_fexp prec emax _ e1 loc_Exact) as [mrs3 e3]. cbn [fst] in H3.
  destruct (shr_m mrs3); try lia; try reflexivity.
  destruct (e3 <=? emax - prec); reflexivity.
Qed.

Lemma SFconvert_sign (x : spec_float) :
  SFsign (SFconvert prec emax x) = SFsign x.
Proof.
  destruct x as [s|s| |s m e]; try reflexivity.
  unfold SFconvert, binary_normalize.
  destruct s; cbn [cond_Zopp Z.opp]; unfold binary_round;
    destruct (shl_align m e _) as [mz ez]; apply binary_round_aux_sign; lia.
Qed.

Lemma SFmul_finite_sign (x : spec_float) (sx sy : bool) (my : positive) (ey : Z) :
  SFsign x = Some sx ->
  SFsign (SFmul prec emax x (S754_finite sy my ey)) = Some (xorb sx sy).
Proof.
  destruct x as [s|s| |s m e]; simpl; intros H; try discriminate;
    injection H as ->; try reflexivity.
  apply binary_round_aux_sign. lia.
Qed.
End SignsOfResults.

Lemma SFsign_opp (x : spec_float) : SFsign (SFopp x) = option_map negb (SFsign x).
Proof. destruct x; reflexivity. Qed.

(** A value is below its opposite exactly when it is negative, and above it
    exactly when it is positive. *)
Lemma SFltb_opp (x : spec_float) :
  SFltb x (SFopp x) = SFltb x (S754_zero false)
  /\ SFltb (SFopp x) x = SFltb (S754_zero false) x.
Proof.
  destruct x as [s|s| |s m e]; try (destruct s; split; reflexivity).
  split; reflexivity.
Qed.

(** A [float] is a finite [double]. *)
Lemma F64_of_float_finite (s : bool) (m : positive) (e : Z) :
  F32.valid (S754_finite s m e) = true ->
  exists m' e', F64.of_float (S754_finite s m e) = S754_finite s m' e'.
Proof.
  unfold F32.valid, valid_binary, bounded, canonical_mantissa. intros H.
  apply andb_prop in H. destruct H as [Hc Hb].
  apply Z.eqb_eq in Hc. apply Z.leb_le in Hb.
  rewrite fexp_eq in Hc. unfold F32.prec, F32.emax in Hc, Hb.
  unfold F64.of_float, SFconvert, binary_normalize.
  destruct s; cbn [cond_Zopp Z.opp].
  - destruct (binary_round_finite F64.prec F64.emax ltac:(reflexivity) true m e)
      as (m' & e' & H1 & _);
      try (rewrite fexp_eq; unfold F64.prec, F64.emax; lia).
    exists m', e'. exact H1.
  - destruct (binary_round_finite F64.prec F64.emax ltac:(reflexivity) false m e)
      as (m' & e' & H1 & _);
      try (rewrite fexp_eq; unfold F64.prec, F64.emax; lia).
    exists m', e'. exact H1.
Qed.

Section OppositeOperands.
Variables prec emax : Z.

Lemma SFmul_opp_r (x y : spec_float) :
  SFmul prec emax x (SFopp y) = SFopp (SFmul prec emax x y).
Proof.
  destruct x as [sx|sx| |sx mx ex], y as [sy|sy| |sy my ey]; simpl;
    try reflexivity; try (destruct sx, sy; reflexivity).
  replace (xorb sx (negb sy)) with (negb (xorb sx sy)) by (destruct sx, sy; reflexivity).
  apply binary_round_aux_negb.
Qed.

Lemma SFdiv_opp_l (x y : spec_float) :
  SFdiv prec emax (SFopp x) y = SFopp (SFdiv prec emax x y).
Proof.
  destruct x as [sx|sx| |sx mx ex], y as [sy|sy| |sy my ey]; simpl;
    try reflexivity; try (destruct sx, sy; reflexivity).
  destruct (SFdiv_core_binary prec emax (Z.pos mx) ex (Z.pos my) ey) as [[mz ez] lz].
  replace (xorb (negb sx) sy) with (negb (xorb sx sy)) by (destruct sx, sy; reflexivity).
  apply binary_round_aux_negb.
Qed.
End OppositeOperands.

Lemma SFopp_involutive (x : spec_float) : SFopp (SFopp x) = x.
Proof. destruct x as [[]|[]| |[] m e]; reflexivity. Qed.

Lemma F32_of_int_opp (n : Z) : n <> 0 -> F32.of_int (- n) = F32.opp (F32.of_int n).
Proof.
  intros Hn. destruct n as [|p|p]; try lia; unfold F32.of_int, F32.opp; simpl Z.opp;
    unfold binary_normalize.
  - apply (binary_round_negb F32.prec F32.emax false).
  - apply (binary_round_negb F32.prec F32.emax true).
Qed.

(** * Further properties of the function *)

(** X1: the dimensions are never checked.  With a height of zero the call
    still returns: the aspect is a NaN when the width is zero too, and the
    left and right bounds are NaN; otherwise the aspect is infinite, and for a
    finite non-zero solved scale the right bound is the infinity of the sign
    of width times scale, the left bound the opposite infinity. *)
Theorem X1_zero_height_not_rejected {Status : Type} (lm : solver Status)
    (image_points : list Vec2f) (model_points : list Vec4f) (width : Z)
    (p0 p1 p2 p3 p4 scale : F64.t) :
  length image_points = length model_points ->
  (6 <= length image_points)%nat ->
  - 2 ^ 31 <= width < 2 ^ 31 ->
  solved_parameters lm image_points model_points width 0
  = [p0; p1; p2; p3; p4; scale] ->
  exists result,
    run lm (estimate_orthographic_camera Status image_points model_points width 0)
    = Returned result
    /\ (width = 0 ->
        l (frustum result) = S754_nan /\ r (frustum result) = S754_nan)
    /\ (width <> 0 ->
        forall s m e, scale = S754_finite s m e ->
        r (frustum result) = S754_infinity (xorb (width <? 0) s)
        /\ l (frustum result) = S754_infinity (negb (xorb (width <? 0) s))).
Proof.
  intros H1 H2 Hr Hs. eexists. split; [eapply run_estimate; eassumption|].
  split.
  - intros ->. split; reflexivity.
  - intros Hn s m e ->. unfold packaged; cbn [frustum l r].
    rewrite (aspect_of_height_zero width Hn Hr).
    destruct (width <? 0), s; split; reflexivity.
Qed.

Lemma X1_zero_height_not_rejected_witness :
  exists result,
    run (scripted_solver 1 sample_solution)
      (estimate_orthographic_camera Z six_image_points six_model_points 640 0)
    = Returned result
    /\ (640 = 0 ->
        l (frustum result) = S754_nan /\ r (frustum result) = S754_nan)
    /\ (640 <> 0 ->
        forall s m e, F64.of_int 100 = S754_finite s m e ->
        r (frustum result) = S754_infinity (xorb (640 <? 0) s)
        /\ l (frustum result) = S754_infinity (negb (xorb (640 <? 0) s))).
Proof.
  apply (X1_zero_height_not_rejected (scripted_solver 1 sample_solution)
           six_image_points six_model_points 640
           (F64.div (F64.of_int 1) (F64.of_int 10)) (F64.div (F64.of_int (-1)) (F64.of_int 5))
           (F64.div (F64.of_int 1) (F64.of_int 100)) (F64.of_int 3) (F64.of_int (-2))).
  - reflexivity.
  - simpl. lia.
  - lia.
  - reflexivity.
Defined.

(** X2: for a square image, whatever its side in the range of [int], the
    aspect is exactly one: the right bound equals the top bound and the left
    bound equals the bottom bound. *)
Theorem X2_square_image {Status : Type} (lm : solver Status)
    (image_points : list Vec2f) (model_points : list Vec4f) (side : Z)
    (p0 p1 p2 p3 p4 scale : F64.t) :
  length image_points = length model_points ->
  (6 <= length image_points)%nat ->
  0 < side < 2 ^ 31 ->
  solved_parameters lm image_points model_points side side
  = [p0; p1; p2; p3; p4; scale] ->
  exists result,
    run lm (estimate_orthographic_camera Status image_points model_points side side)
    = Returned result
    /\ aspect_of side side = F32.one
    /\ r (frustum result) = t (frustum result)
    /\ l (frustum result) = b (frustum result).
Proof.
  intros H1 H2 Hr Hs. eexists. split; [eapply run_estimate; eassumption|].
  assert (Ha : aspect_of side side = F32.one) by (apply aspect_of_square; lia).
  split; [exact Ha|].
  unfold packaged; cbn [frustum l r b t]. rewrite Ha. split; reflexivity.
Qed.

Lemma X2_square_image_witness :
  exists result,
    run (scripted_solver 1 sample_solution)
      (estimate_orthographic_camera Z six_image_points six_model_points 200 200)
    = Returned result
    /\ aspect_of 200 200 = F32.one
    /\ r (frustum result) = t (frustum result)
    /\ l (frustum result) = b (frustum result).
Proof.
  apply (X2_square_image (scripted_solver 1 sample_solution)
           six_image_points six_model_points 200
           (F64.div (F64.of_int 1) (F64.of_int 10)) (F64.div (F64.of_int (-1)) (F64.of_int 5))
           (F64.div (F64.of_int 1) (F64.of_int 100)) (F64.of_int 3) (F64.of_int (-2))
           (F64.of_int 100)).
  - reflexivity.
  - simpl. lia.
  - lia.
  - reflexivity.
Defined.

(** X3: for positive dimensions in the range of [int] the aspect is a positive
    finite number, and for a finite solved scale the right bound is never a
    NaN: it carries the sign of the scale, and the left bound the other sign. *)
Theorem X3_sign_of_bounds {Status : Type} (lm : solver Status)
    (image_points : list Vec2f) (model_points : list Vec4f) (width height : Z)
    (p0 p1 p2 p3 p4 : F64.t) (s : bool) (m : positive) (e : Z) :
  length image_points = length model_points ->
  (6 <= length image_points)%nat ->
  0 < width < 2 ^ 31 -> 0 < height < 2 ^ 31 ->
  solved_parameters lm image_points model_points width height
  = [p0; p1; p2; p3; p4; S754_finite s m e] ->
  exists result,
    run lm (estimate_orthographic_camera Status image_points model_points width height)
    = Returned result
    /\ (exists ma ea, aspect_of width height = S754_finite false ma ea)
    /\ SFsign (r (frustum result)) = Some s
    /\ SFsign (l (frustum result)) = Some (negb s).
Proof.
  intros H1 H2 Hw Hh Hs. eexists. split; [eapply run_estimate; eassumption|].
  destruct (aspect_of_positive width height Hw Hh) as (ma & ea & Ha).
  split; [exists ma, ea; exact Ha|].
  destruct (packaged_symmetric (aspect_of width height) p0 p1 p2 p3 p4 (S754_finite s m e))
    as [Hl _].
  assert (Hr : SFsign (r (frustum (packaged (aspect_of width height) p0 p1 p2 p3 p4
                                    (S754_finite s m e)))) = Some s).
  { unfold packaged; cbn [frustum r].
    rewrite (F32_mul_one_l _ (aspect_of_valid width height)), Ha.
    unfold F32.of_double, F64.mul, F64.of_float.
    rewrite SFconvert_sign by reflexivity.
    rewrite (SFmul_finite_sign F64.prec F64.emax _ false) by
      (rewrite SFconvert_sign by reflexivity; reflexivity).
    reflexivity. }
  split; [exact Hr|].
  rewrite Hl. unfold F32.opp. rewrite SFsign_opp, Hr. reflexivity.
Qed.

Lemma X3_sign_of_bounds_witness :
  exists result,
    run (scripted_solver 1 (solution_with_scale (S754_finite true 7036874417766400 (-46))))
      (estimate_orthographic_camera Z six_image_points six_model_points 640 480)
    = Returned result
    /\ (exists ma ea, aspect_of 640 480 = S754_finite false ma ea)
    /\ SFsign (r (frustum result)) = Some true
    /\ SFsign (l (frustum result)) = Some (negb true).
Proof.
  apply (X3_sign_of_bounds
           (scripted_solver 1 (solution_with_scale (S754_finite true 7036874417766400 (-46))))
           six_image_points six_model_points 640 480
           F64.zero F64.zero F64.zero F64.zero F64.zero
           true 7036874417766400 (-46)).
  - reflexivity.
  - simpl. lia.
  - lia.
  - lia.
  - reflexivity.
Defined.

(** X4: the returned frustum is ordered exactly when its upper bounds are
    positive: [left < right] holds exactly when [0 < right] and
    [bottom < top] exactly when [0 < top]; it is reversed exactly when they
    are negative.  With a zero or NaN bound neither order holds. *)
Theorem X4_frustum_order {Status : Type} (lm : solver Status)
    (image_points : list Vec2f) (model_points : list Vec4f) (width height : Z)
    (p0 p1 p2 p3 p4 scale : F64.t) :
  length image_points = length model_points ->
  (6 <= length image_points)%nat ->
  solved_parameters lm image_points model_points width height
  = [p0; p1; p2; p3; p4; scale] ->
  exists result,
    run lm (estimate_orthographic_camera Status image_points model_points width height)
    = Returned result
    /\ F32.ltb (l (frustum result)) (r (frustum result))
       = F32.ltb F32.zero (r (frustum result))
    /\ F32.ltb (b (frustum result)) (t (frustum result))
       = F32.ltb F32.zero (t (frustum result))
    /\ F32.ltb (r (frustum result)) (l (frustum result))
       = F32.ltb (r (frustum result)) F32.zero
    /\ F32.ltb (t (frustum result)) (b (frustum result))
       = F32.ltb (t (frustum result)) F32.zero.
Proof.
  intros H1 H2 Hs. eexists. split; [eapply run_estimate; eassumption|].
  destruct (packaged_symmetric (aspect_of width height) p0 p1 p2 p3 p4 scale) as [Hl Hb].
  rewrite Hl, Hb. unfold F32.ltb, F32.opp, F32.zero.
  destruct (SFltb_opp (r (frustum (packaged (aspect_of width height) p0 p1 p2 p3 p4 scale))))
    as [Hr1 Hr2].
  destruct (SFltb_opp (t (frustum (packaged (aspect_of width height) p0 p1 p2 p3 p4 scale))))
    as [Ht1 Ht2].
  repeat split; assumption.
Qed.

Lemma X4_frustum_order_witness :
  exists result,
    run (scripted_solver 1 sample_solution)
      (estimate_orthographic_camera Z six_image_points six_model_points 640 480)
    = Returned result
    /\ F32.ltb (l (frustum result)) (r (frustum result))
       = F32.ltb F32.zero (r (frustum result))
    /\ F32.ltb (b (frustum result)) (t (frustum result))
       = F32.ltb F32.zero (t (frustum result))
    /\ F32.ltb (r (frustum result)) (l (frustum result))
       = F32.ltb (r (frustum result)) F32.zero
    /\ F32.ltb (t (frustum result)) (b (frustum result))
       = F32.ltb (t (frustum result)) F32.zero.
Proof.
  apply (X4_frustum_order (scripted_solver 1 sample_solution)
           six_image_points six_model_points 640 480
           (F64.div (F64.of_int 1) (F64.of_int 10)) (F64.div (F64.of_int (-1)) (F64.of_int 5))
           (F64.div (F64.of_int 1) (F64.of_int 100)) (F64.of_int 3) (F64.of_int (-2))
           (F64.of_int 100)).
  - reflexivity.
  - simpl. lia.
  - reflexivity.
Defined.

(** X5: a NaN left by the solver is returned as it is.  When the solved scale
    is a NaN all four bounds are NaN, whatever the dimensions; a NaN among the
    first five coefficients is the NaN of its field.  Nothing is signalled. *)
Theorem X5_nan_is_returned {Status : Type} (lm : solver Status)
    (image_points : list Vec2f) (model_points : list Vec4f) (width height : Z)
    (p0 p1 p2 p3 p4 scale : F64.t) :
  length image_points = length model_points ->
  (6 <= length image_points)%nat ->
  solved_parameters lm image_points model_points width height
  = [p0; p1; p2; p3; p4; scale] ->
  exists result,
    run lm (estimate_orthographic_camera Status image_points model_points width height)
    = Returned result
    /\ (scale = S754_nan ->
        frustum result
        = {| l := S754_nan; r := S754_nan; b := S754_nan; t := S754_nan |})
    /\ (p0 = S754_nan -> r_x result = S754_nan)
    /\ (p1 = S754_nan -> r_y result = S754_nan)
    /\ (p2 = S754_nan -> r_z result = S754_nan)
    /\ (p3 = S754_nan -> t_x result = S754_nan)
    /\ (p4 = S754_nan -> t_y result = S754_nan).
Proof.
  intros H1 H2 Hs. eexists. split; [eapply run_estimate; eassumption|].
  split.
  - intros ->. unfold packaged; cbn [frustum].
    assert (Hn : forall x, F64.mul x S754_nan = S754_nan) by (intros [| | |]; reflexivity).
    rewrite !Hn. reflexivity.
  - repeat split; intros ->; reflexivity.
Qed.

Lemma X5_nan_is_returned_witness :
  exists result,
    run (scripted_solver 5 (solution_with_scale S754_nan))
      (estimate_orthographic_camera Z six_image_points six_model_points 640 480)
    = Returned result
    /\ (S754_nan = S754_nan ->
        frustum result
        = {| l := S754_nan; r := S754_nan; b := S754_nan; t := S754_nan |})
    /\ (F64.zero = S754_nan -> r_x result = S754_nan)
    /\ (F64.zero = S754_nan -> r_y result = S754_nan)
    /\ (F64.zero = S754_nan -> r_z result = S754_nan)
    /\ (F64.zero = S754_nan -> t_x result = S754_nan)
    /\ (F64.zero = S754_nan -> t_y result = S754_nan).
Proof.
  apply (X5_nan_is_returned (scripted_solver 5 (solution_with_scale S754_nan))
           six_image_points six_model_points 640 480
           F64.zero F64.zero F64.zero F64.zero F64.zero S754_nan).
  - reflexivity.
  - simpl. lia.
  - reflexivity.
Defined.

(** X6: the solver is called once when both assertions pass, whatever it
    answers (even a vector too short to be read back), and is not called at
    all when an assertion fails. *)
Theorem X6_one_solver_call {Status : Type} (lm : solver Status)
    (image_points : list Vec2f) (model_points : list Vec4f) (width height : Z) :
  solver_calls lm
    (estimate_orthographic_camera Status image_points model_points width height)
  = if (Nat.eqb (length image_points) (length model_points)
        && Nat.leb 6 (length image_points))%bool
    then 1%nat else 0%nat.
Proof.
  unfold estimate_orthographic_camera.
  destruct (Nat.eqb (length image_points) (length model_points)); [|reflexivity].
  destruct (Nat.leb 6 (length image_points)); [|reflexivity].
  cbn [andb assert bind set_coeff setConstant repeat length Nat.ltb Nat.leb
       lm_minimize solver_calls].
  f_equal. unfold camera_frustum_of, coeff.
  destruct (lm _ _) as [info parameters]. cbn [snd fst].
  repeat (match goal with
          | |- context [nth_error parameters ?i] => destruct (nth_error parameters i)
          end; cbn [bind solver_calls]; try reflexivity).
Qed.

(** X7: a solved scale of zero is not rejected: for positive dimensions in
    the range of [int] the frustum collapses to zeros, the right and top
    bounds with the sign of the scale, the left and bottom bounds with the
    other sign. *)
Theorem X7_zero_scale_collapses {Status : Type} (lm : solver Status)
    (image_points : list Vec2f) (model_points : list Vec4f) (width height : Z)
    (p0 p1 p2 p3 p4 : F64.t) (s : bool) :
  length image_points = length model_points ->
  (6 <= length image_points)%nat ->
  0 < width < 2 ^ 31 -> 0 < height < 2 ^ 31 ->
  solved_parameters lm image_points model_points width height
  = [p0; p1; p2; p3; p4; S754_zero s] ->
  exists result,
    run lm (estimate_orthographic_camera Status image_points model_points width height)
    = Returned result
    /\ frustum result
       = {| l := S754_zero (negb s); r := S754_zero s;
            b := S754_zero (negb s); t := S754_zero s |}.
Proof.
  intros H1 H2 Hw Hh Hs. eexists. split; [eapply run_estimate; eassumption|].
  rewrite packaged_frustum by (try apply aspect_of_valid; reflexivity).
  destruct (aspect_of_positive width height Hw Hh) as (ma & ea & Ha).
  pose proof (aspect_of_valid width height) as Hv. rewrite Ha in *.
  destruct (F64_of_float_finite false ma ea Hv) as (m' & e' & Hf).
  destruct (F64_of_float_finite true ma ea Hv) as (m'' & e'' & Hf').
  change (F32.opp (S754_finite false ma ea)) with (S754_finite true ma ea).
  rewrite Hf, Hf'. destruct s; reflexivity.
Qed.

Lemma X7_zero_scale_collapses_witness :
  exists result,
    run (scripted_solver 1 (solution_with_scale (S754_zero false)))
      (estimate_orthographic_camera Z six_image_points six_model_points 640 480)
    = Returned result
    /\ frustum result
       = {| l := S754_zero (negb false); r := S754_zero false;
            b := S754_zero (negb false); t := S754_zero false |}.
Proof.
  apply (X7_zero_scale_collapses (scripted_solver 1 (solution_with_scale (S754_zero false)))
           six_image_points six_model_points 640 480
           F64.zero F64.zero F64.zero F64.zero F64.zero false).
  - reflexivity.
  - simpl. lia.
  - lia.
  - lia.
  - reflexivity.
Defined.

(** X8: a negative width is accepted, and mirrors the frustum: with the same
    solved scale, the call with the width negated returns the left bound as
    right bound and the right bound as left bound; bottom and top are the
    same. *)
Theorem X8_negative_width_mirrors {Status : Type} (lm : solver Status)
    (image_points : list Vec2f) (model_points : list Vec4f) (width height : Z)
    (p0 p1 p2 p3 p4 q0 q1 q2 q3 q4 scale : F64.t) :
  length image_points = length model_points ->
  (6 <= length image_points)%nat ->
  width <> 0 ->
  solved_parameters lm image_points model_points width height
  = [p0; p1; p2; p3; p4; scale] ->
  solved_parameters lm image_points model_points (- width) height
  = [q0; q1; q2; q3; q4; scale] ->
  exists result mirrored,
    run lm (estimate_orthographic_camera Status image_points model_points width height)
    = Returned result
    /\ run lm (estimate_orthographic_camera Status image_points model_points (- width) height)
       = Returned mirrored
    /\ frustum mirrored
       = {| l := r (frustum result); r := l (frustum result);
            b := b (frustum result); t := t (frustum result) |}.
Proof.
  intros H1 H2 Hn Hs Hs'. do 2 eexists.
  split; [eapply run_estimate; eassumption|].
  split; [eapply run_estimate; eassumption|].
  assert (Ha : aspect_of (- width) height = F32.opp (aspect_of width height)).
  { unfold aspect_of, F32.div. rewrite F32_of_int_opp by assumption.
    apply SFdiv_opp_l. }
  unfold packaged; cbn [frustum l r b t]. rewrite Ha.
  unfold F32.mul, F32.opp, F64.mul, F64.of_float, F32.of_double.
  rewrite !SFmul_opp_l, !SFmul_opp_r, !SFconvert_opp, !SFmul_opp_l, !SFconvert_opp.
  rewrite SFopp_involutive. reflexivity.
Qed.

Lemma X8_negative_width_mirrors_witness :
  exists result mirrored,
    run idle_solver (estimate_orthographic_camera Z six_image_points six_model_points 640 480)
    = Returned result
    /\ run idle_solver
         (estimate_orthographic_camera Z six_image_points six_model_points (- 640) 480)
       = Returned mirrored
    /\ frustum mirrored
       = {| l := r (frustum result); r := l (frustum result);
            b := b (frustum result); t := t (frustum result) |}.
Proof.
  apply (X8_negative_width_mirrors idle_solver six_image_points six_model_points 640 480
           F64.zero F64.zero F64.zero F64.zero F64.zero
           F64.zero F64.zero F64.zero F64.zero F64.zero F64.lit_110).
  - reflexivity.
  - simpl. lia.
  - lia.
  - reflexivity.
  - reflexivity.
Defined.
